(** * noosh: a shallow embedding of the shell's read-tokenize-dispatch loop

    The development follows [src/main.c] (the plain-prompt shell); what
    [src/noosh.c] has of its own ([read_config], [get_cwd], [noosh_pwd]
    and the loop with the coloured prompt) is in [Module NooshC], which
    uses the definitions of [src/main.c] for the code the two files share.

    - C strings are lists of characters read from a byte buffer up to the
      first NUL; a [char *] is an offset into such a buffer.
    - [int] variables are integers of [Z].  Signed overflow is undefined in
      C and needs a line of more than 2^31 bytes; it is not modelled.
    - The operating system and the C library are a [host]: a record of
      answers (does this allocation succeed, does [chdir] succeed, what
      does the child do), each a function of the [world] reached so far.
    - A computation is a function from a [world] to a [result]: it returns a
      value, or the process calls [exit], or it never gets out of its wait
      for a child, or the model's fuel runs out.
    - [stdout] is buffered: what [printf] has written may still be in the
      buffer when the process forks, and the child has a copy of it.
    - The heap is not modelled beyond the calls of the allocator: [free]
      leaves no trace in a [world]. *)

From Stdlib Require Import Ascii String List ZArith Lia Bool Arith.
From Stdlib Require Import DecimalString.
Import ListNotations.
Local Open Scope Z_scope.

Set Implicit Arguments.

(* ================================================================== *)
(** ** Characters, C strings and buffers *)

Definition str := list ascii.

Definition lit (s : string) : str := list_ascii_of_string s.

Definition NUL : ascii := "000"%char.

Definition is_nul (c : ascii) : bool := Ascii.eqb c NUL.

(** The text of a newline; the double quote. *)
Definition LF : str := ["010"%char].
Definition DQUOTE : ascii := "034"%char.

(** [NOOSH_TOK_DELIM " \t\r\n\a"] *)
Definition NOOSH_TOK_DELIM : str :=
  [" "%char; "009"%char; "013"%char; "010"%char; "007"%char].

(** [NOOSH_TOK_BUFSIZE], [NOOSH_RL_BUFSIZE], [EXIT_SUCCESS], [EXIT_FAILURE],
    and the size of a [char *] on the LP64 hosts the shell is built for. *)
Definition NOOSH_TOK_BUFSIZE : Z := 64.
Definition NOOSH_RL_BUFSIZE : Z := 1024.
Definition EXIT_SUCCESS : Z := 0.
Definition EXIT_FAILURE : Z := 1.
Definition sizeof_char_ptr : Z := 8.
Definition PATH_MAX : Z := 4096.
Definition INT_MAX : Z := 2147483647.

(** Membership of a character in a C string of accepted characters, as
    [strchr] finds it. *)
Definition in_set (c : ascii) (set : str) : bool :=
  existsb (Ascii.eqb c) set.

Definition is_delim (c : ascii) : bool := in_set c NOOSH_TOK_DELIM.

Arguments in_set : simpl never.
Arguments is_delim : simpl never.

(** The C string held by a sequence of bytes: the bytes before the first
    NUL. *)
Fixpoint c_str (s : list ascii) : str :=
  match s with
  | [] => []
  | c :: s' => if is_nul c then [] else c :: c_str s'
  end.

(** A buffer and pointers into it.  Reading beyond the initialised bytes
    gives NUL; no NUL-terminated buffer is ever read there. *)
Definition memory := list ascii.

Definition peek (m : memory) (p : nat) : ascii := nth p m NUL.

Fixpoint poke (m : memory) (p : nat) (c : ascii) : memory :=
  match m, p with
  | [], _ => []
  | _ :: m', O => c :: m'
  | x :: m', S p' => x :: poke m' p' c
  end.

(** The string a pointer denotes. *)
Definition string_at (m : memory) (p : nat) : str := c_str (skipn p m).

(* ================================================================== *)
(** ** The C library's [strspn], [strcspn] and [strtok] *)

(** [strspn s accept]: length of the longest prefix of [s] made of
    characters of [accept] (NUL is never one of them). *)
Fixpoint strspn (s : list ascii) (accept : str) : nat :=
  match s with
  | [] => O
  | c :: s' =>
      if is_nul c then O
      else if in_set c accept then S (strspn s' accept) else O
  end.

(** [strcspn s reject]: length of the longest prefix of [s] with no
    character of [reject]. *)
Fixpoint strcspn (s : list ascii) (reject : str) : nat :=
  match s with
  | [] => O
  | c :: s' =>
      if is_nul c then O
      else if in_set c reject then O else S (strcspn s' reject)
  end.

(** [strtok s delim], with the library's saved pointer made explicit.  The
    first argument is [Some p] for a fresh string and [None] for [NULL]
    (continue from the saved pointer).  The result is the token's pointer
    ([None] for [NULL]), the buffer, in which the delimiter that ends the
    token has been overwritten with NUL, and the new saved pointer. *)
Definition strtok (s : option nat) (delim : str) (m : memory) (save : nat)
  : option nat * memory * nat :=
  let s0 := match s with Some p => p | None => save end in
  if is_nul (peek m s0) then (None, m, s0)
  else
    let b := (s0 + strspn (skipn s0 m) delim)%nat in
    if is_nul (peek m b) then (None, m, b)
    else
      let e := (b + strcspn (skipn b m) delim)%nat in
      if is_nul (peek m e) then (Some b, m, e)
      else (Some b, poke m e NUL, S e).

(** [strcmp a b]: the difference of the first bytes at which the two
    strings differ (the end of a string counts as NUL), 0 when there is
    none. *)
Fixpoint strcmp (a b : str) : Z :=
  match a, b with
  | [], [] => 0
  | [], y :: _ => 0 - Z.of_nat (nat_of_ascii y)
  | x :: _, [] => Z.of_nat (nat_of_ascii x)
  | x :: a', y :: b' =>
      if Ascii.eqb x y then strcmp a' b'
      else Z.of_nat (nat_of_ascii x) - Z.of_nat (nat_of_ascii y)
  end.

(* ================================================================== *)
(** ** The process, its host and the computations *)

(** What [waitpid (pid, &status, WUNTRACED)] can report about a child. *)
Inductive wstatus :=
| WExited (code : Z)
| WSignaled (sig : Z)
| WStopped (sig : Z).

Definition WIFEXITED (s : wstatus) : bool :=
  match s with WExited _ => true | _ => false end.

Definition WIFSIGNALED (s : wstatus) : bool :=
  match s with WSignaled _ => true | _ => false end.

(** The calls the shell makes to the allocator and the kernel, logged in
    the order they are made. *)
Inductive call :=
| Malloc (size : Z)
| Realloc (size : Z)
| Chdir (path : str)
| Getcwd (size : Z)
| Fork
| Execvp (file : str) (argv : list str)
| Waitpid (pid : Z).

Record world := mkWorld {
  w_stdin : list ascii;      (* bytes not yet read from standard input *)
  w_stdout : str;            (* everything written to standard output *)
  w_stderr : str;            (* everything written to standard error *)
  w_cwd : str;               (* the process working directory *)
  w_errno : Z;
  w_child : list wstatus;    (* what the current child will still report *)
  w_calls : list call        (* oldest first *)
}.

(** The answer of a call that can fail with an error number. *)
Inductive sys (A : Type) :=
| Done (a : A)
| Fail (errno : Z).
Arguments Fail {A} errno.

Record host := mkHost {
  (* does an allocation of this many bytes succeed *)
  h_alloc : world -> Z -> sys unit;
  (* the directory [chdir path] leads to *)
  h_chdir : world -> str -> sys str;
  (* can the working directory be resolved into a buffer of that size *)
  h_getcwd : world -> Z -> sys unit;
  (* the child's process id *)
  h_fork : world -> sys positive;
  (* a program found and started reports these state changes *)
  h_execvp : world -> str -> list str -> sys (list wstatus);
  h_strerror : Z -> str;
  (* is the next state change of this child delivered to [waitpid]; it is
     not where the child is not kept to be waited for, as when [SIGCHLD]
     is ignored and the child ends: [ECHILD] *)
  h_waitpid : world -> Z -> sys unit;
  (* the value of an [int] of the stack that was never written, as the
     status macros read it *)
  h_indeterminate : world -> wstatus;
  (* how many of the last bytes written to standard output are still in
     the buffer of [stdout] *)
  h_unflushed : world -> nat
}.

Inductive result (A : Type) :=
| Ret (a : A) (w : world)                     (* returned *)
| Exited (code : Z) (w : world)               (* the process called exit *)
| Execed (reports : list wstatus) (w : world) (* the image was replaced *)
| Hang (w : world)                            (* waits for ever *)
| OutOfFuel (w : world).
Arguments Exited {A} code w.
Arguments Execed {A} reports w.
Arguments Hang {A} w.
Arguments OutOfFuel {A} w.

Definition M (A : Type) := world -> result A.

Definition ret {A} (a : A) : M A := fun w => Ret a w.

Definition bind {A B} (c : M A) (k : A -> M B) : M B :=
  fun w =>
    match c w with
    | Ret a w' => k a w'
    | Exited code w' => Exited code w'
    | Execed r w' => Execed r w'
    | Hang w' => Hang w'
    | OutOfFuel w' => OutOfFuel w'
    end.

Declare Scope noosh_scope.
Delimit Scope noosh_scope with noosh.
Notation "x <- c ;; k" := (bind c (fun x => k))
  (at level 61, c at next level, right associativity) : noosh_scope.
Notation "c ;; k" := (bind c (fun _ => k))
  (at level 61, right associativity) : noosh_scope.
Local Open Scope noosh_scope.

(** World updates. *)
Definition log (c : call) (w : world) : world :=
  mkWorld (w_stdin w) (w_stdout w) (w_stderr w) (w_cwd w) (w_errno w)
          (w_child w) (w_calls w ++ [c]).

Definition set_errno (e : Z) (w : world) : world :=
  mkWorld (w_stdin w) (w_stdout w) (w_stderr w) (w_cwd w) e
          (w_child w) (w_calls w).

Definition set_stdin (i : list ascii) (w : world) : world :=
  mkWorld i (w_stdout w) (w_stderr w) (w_cwd w) (w_errno w)
          (w_child w) (w_calls w).

Definition set_cwd (d : str) (w : world) : world :=
  mkWorld (w_stdin w) (w_stdout w) (w_stderr w) d (w_errno w)
          (w_child w) (w_calls w).

Definition set_child (r : list wstatus) (w : world) : world :=
  mkWorld (w_stdin w) (w_stdout w) (w_stderr w) (w_cwd w) (w_errno w)
          r (w_calls w).

Definition put_out (s : str) (w : world) : world :=
  mkWorld (w_stdin w) (w_stdout w ++ s) (w_stderr w) (w_cwd w) (w_errno w)
          (w_child w) (w_calls w).

Definition put_err (s : str) (w : world) : world :=
  mkWorld (w_stdin w) (w_stdout w) (w_stderr w ++ s) (w_cwd w) (w_errno w)
          (w_child w) (w_calls w).

Section Shell.

Variable H : host.

(** *** Library and system calls *)

(** [printf] of an already formatted text; [fprintf (stderr, ...)]. *)
Definition printf (s : str) : M unit := fun w => Ret tt (put_out s w).
Definition eprintf (s : str) : M unit := fun w => Ret tt (put_err s w).

(** [perror s]: the prefix, a colon, the message of [errno]. *)
Definition perror (s : str) : M unit :=
  fun w =>
    Ret tt (put_err (s ++ lit ": " ++ h_strerror H (w_errno w) ++ LF) w).

Definition exit {A} (code : Z) : M A := fun w => Exited code w.

(** [malloc] and [realloc]: [true] for a non-null pointer. *)
Definition malloc (size : Z) : M bool :=
  fun w =>
    match h_alloc H w size with
    | Done _ => Ret true (log (Malloc size) w)
    | Fail e => Ret false (set_errno e (log (Malloc size) w))
    end.

Definition realloc (size : Z) : M bool :=
  fun w =>
    match h_alloc H w size with
    | Done _ => Ret true (log (Realloc size) w)
    | Fail e => Ret false (set_errno e (log (Realloc size) w))
    end.

(** [getchar]: [None] is [EOF]; the end of the stream stays the end. *)
Definition getchar : M (option ascii) :=
  fun w =>
    match w_stdin w with
    | [] => Ret None w
    | c :: rest => Ret (Some c) (set_stdin rest w)
    end.

(** [chdir path]: 0, or -1 with [errno] set. *)
Definition chdir (path : str) : M Z :=
  fun w =>
    match h_chdir H w path with
    | Done d => Ret 0 (set_cwd d (log (Chdir path) w))
    | Fail e => Ret (-1) (set_errno e (log (Chdir path) w))
    end.

(** [getcwd (buf, size)]: the working directory, or [None] for [NULL]. *)
Definition getcwd (size : Z) : M (option str) :=
  fun w =>
    match h_getcwd H w size with
    | Done _ => Ret (Some (w_cwd w)) (log (Getcwd size) w)
    | Fail e => Ret None (set_errno e (log (Getcwd size) w))
    end.

(** [execvp (file, argv)] returns -1 when it fails and does not return
    when it succeeds. *)
Definition execvp (file : str) (argv : list str) : M Z :=
  fun w =>
    match h_execvp H w file argv with
    | Done reports => Execed reports (log (Execvp file argv) w)
    | Fail e => Ret (-1) (set_errno e (log (Execvp file argv) w))
    end.

(** What is still in the buffer of [stdout]: the last bytes written. *)
Definition unflushed (w : world) : str :=
  skipn (length (w_stdout w) - h_unflushed H w) (w_stdout w).

(** [fork]: the code [child] runs in the new process, where [fork]
    returned 0; it ends by [exit] or by replacing its image, and what it
    wrote and what it will report are part of the world in which the
    parent goes on with the child's process id and its own [errno].  The
    child starts with a copy of the buffer of [stdout]: its [exit] writes
    that copy out, a new image drops it.  When no process can be created
    the parent goes on with -1. *)
Definition fork {A} (child : M Empty_set) (parent : Z -> M A) : M A :=
  fun w =>
    match h_fork H w with
    | Fail e => parent (-1) (set_errno e (log Fork w))
    | Done pid =>
        match child (log Fork w) with
        | Ret nothing _ => match nothing with end
        | Exited code wc =>
            parent (Z.pos pid)
                   (set_errno (w_errno w)
                      (set_child [WExited code]
                         (put_out (unflushed (log Fork w)) wc)))
        | Execed reports wc =>
            parent (Z.pos pid) (set_errno (w_errno w) (set_child reports wc))
        | Hang wc =>
            parent (Z.pos pid) (set_errno (w_errno w) (set_child [] wc))
        | OutOfFuel wc => OutOfFuel wc
        end
    end.

(** [wpid = waitpid (pid, &status, WUNTRACED)], with the [status] the
    variable holds before the call: the child's process id with its next
    state change written to [status]; or, when that state change is not
    delivered, -1 with [errno] set and [status] as it was, and the state
    change is lost.  When the child has no state change left, no call
    gives the caller a new status any more: it is blocked in the call or,
    the child being gone, fails in it every time, and a loop that waits
    for a status does not end. *)
Definition waitpid (pid : Z) (status : wstatus) : M (Z * wstatus) :=
  fun w =>
    match w_child w with
    | [] => Hang (log (Waitpid pid) w)
    | s :: rest =>
        match h_waitpid H w pid with
        | Done _ => Ret (pid, s) (set_child rest (log (Waitpid pid) w))
        | Fail e =>
            Ret (-1, status)
                (set_errno e (set_child rest (log (Waitpid pid) w)))
        end
    end.

(** An array indexed by an [int] and represented by its initialised
    slots: writing slot [i] keeps the slots below it. *)
Definition store {X} (a : list X) (i : Z) (x : X) : list X :=
  firstn (Z.to_nat i) a ++ [x].

(** [for (i = i0; i < bound; i++) body]; a body that answers [Some v] makes
    the enclosing function return [v].  [n] counts the iterations left. *)
Fixpoint for_loop {A} (n : nat) (i bound : Z) (body : Z -> M (option A))
  : M (option A) :=
  match n with
  | O => ret None
  | S n' =>
      if i <? bound then
        r <- body i ;;
        match r with
        | Some v => ret (Some v)
        | None => for_loop n' (i + 1) bound body
        end
      else ret None
  end.

(** *** Builtins ([src/main.c]) *)

(** A token array: pointers into the line's buffer, [None] for [NULL]. *)
Definition array := list (option nat).

Definition slot (args : array) (i : nat) : option nat := nth i args None.

Definition builtin_str : list str :=
  [lit "cd"; lit "pwd"; lit "help"; lit "exit"].

Definition noosh_num_builtins : Z := Z.of_nat (length builtin_str).

Definition noosh_cd (m : memory) (args : array) : M Z :=
  match slot args 1 with
  | None =>
      eprintf (lit "noosh: expected argument to " ++ [DQUOTE] ++ lit "cd"
               ++ [DQUOTE] ++ LF)
  | Some p =>
      r <- chdir (string_at m p) ;;
      if negb (r =? 0) then perror (lit "noosh") else ret tt
  end ;;
  ret 1.

Definition noosh_pwd (m : memory) (args : array) : M Z :=
  buf <- malloc (1 * PATH_MAX) ;;
  (if negb buf then
     perror (lit "noosh: allocation error" ++ LF) ;;
     exit EXIT_FAILURE
   else ret tt) ;;
  cwd <- getcwd PATH_MAX ;;
  match cwd with
  | Some d => printf (d ++ LF)
  | None => perror (lit "noosh") ;; exit EXIT_FAILURE
  end ;;
  ret 1.

Definition noosh_help (m : memory) (args : array) : M Z :=
  printf (lit "noosh" ++ LF) ;;
  printf (lit "Type program names and arguments, and hit enter." ++ LF) ;;
  printf (lit "The following are built in:" ++ LF) ;;
  for_loop (Z.to_nat noosh_num_builtins) 0 noosh_num_builtins
    (fun i =>
       printf (lit "  " ++ nth (Z.to_nat i) builtin_str [] ++ LF) ;;
       ret (@None unit)) ;;
  printf (lit "Use the man command for information on other programs." ++ LF) ;;
  ret 1.

Definition noosh_exit (m : memory) (args : array) : M Z :=
  ret 0.

Definition builtin_func : list (memory -> array -> M Z) :=
  [noosh_cd; noosh_pwd; noosh_help; noosh_exit].

(** *** Launching a program *)

(** The argument vector [execvp] reads: the strings of the slots before the
    first [NULL]. *)
Fixpoint argv_of (m : memory) (args : array) : list str :=
  match args with
  | Some p :: rest => string_at m p :: argv_of m rest
  | _ => []
  end.

(** [do wpid = waitpid (pid, &status, WUNTRACED);
     while (!WIFEXITED (status) && !WIFSIGNALED (status));]
    [wpid] is not looked at: after a call that failed the test reads the
    [status] of before the call.  One iteration per state change of the
    child. *)
Fixpoint wait_loop (n : nat) (pid : Z) (status : wstatus) : M unit :=
  match n with
  | O => fun w => OutOfFuel w
  | S n' =>
      r <- waitpid pid status ;;
      let '(wpid, status) := r in
      if negb (WIFEXITED status) && negb (WIFSIGNALED status)
      then wait_loop n' pid status
      else ret tt
  end.

Definition noosh_launch (m : memory) (args : array) : M Z :=
  fork
    (* pid == 0: the child *)
    (r <- execvp (match slot args 0 with Some p => string_at m p | None => [] end)
                 (argv_of m args) ;;
     (if r =? -1 then perror (lit "noosh") else ret tt) ;;
     exit EXIT_FAILURE)
    (fun pid =>
       if pid <? 0 then
         (* error forking *)
         perror (lit "noosh")
       else
         (* the parent; [int status;] has no initial value *)
         fun w =>
           wait_loop (S (length (w_child w))) pid (h_indeterminate H w) w) ;;
  ret 1.

(** *** Dispatch *)

Definition noosh_execute (m : memory) (args : array) : M Z :=
  match slot args 0 with
  | None =>
      (* an empty command was entered *)
      ret 1
  | Some p =>
      r <- for_loop (Z.to_nat noosh_num_builtins) 0 noosh_num_builtins
             (fun i =>
                if strcmp (string_at m p) (nth (Z.to_nat i) builtin_str []) =? 0
                then
                  (* [i] is within the table; [nth] wants a default *)
                  v <- nth (Z.to_nat i) builtin_func noosh_exit m args ;;
                  ret (Some v)
                else ret None) ;;
      match r with
      | Some v => ret v
      | None => noosh_launch m args
      end
  end.

(** *** Reading a line *)

(** The body of [while (1)] in [noosh_read_line]; [n] bounds the number of
    characters read, one per iteration. *)
Fixpoint read_loop (n : nat) (bufsize position : Z) (buffer : memory)
  : M memory :=
  match n with
  | O => fun w => OutOfFuel w
  | S n' =>
      c <- getchar ;;
      match c with
      | None => ret (store buffer position NUL)
      | Some ch =>
          if Ascii.eqb ch "010"%char then ret (store buffer position NUL)
          else
            let buffer := store buffer position ch in
            let position := position + 1 in
            if position >=? bufsize then
              let bufsize := bufsize + NOOSH_RL_BUFSIZE in
              ok <- realloc bufsize ;;
              if negb ok then
                eprintf (lit "noosh: allocation error" ++ LF) ;;
                exit EXIT_FAILURE
              else read_loop n' bufsize position buffer
            else read_loop n' bufsize position buffer
      end
  end.

Definition noosh_read_line : M memory :=
  let bufsize := NOOSH_RL_BUFSIZE in
  let position := 0 in
  buffer <- malloc (1 * bufsize) ;;
  if negb buffer then
    eprintf (lit "noosh: allocation error" ++ LF) ;;
    exit EXIT_FAILURE
  else
    fun w => read_loop (S (length (w_stdin w))) bufsize position [] w.

(** *** Splitting a line *)

(** The state of [noosh_split_line]'s loop: the line's buffer, [strtok]'s
    saved pointer, and the locals. *)
Record split_state := mkSplit {
  s_line : memory;
  s_save : nat;
  s_bufsize : Z;
  s_position : Z;
  s_tokens : array
}.

(** [while (token != NULL)]; [n] bounds the number of tokens. *)
Fixpoint split_loop (n : nat) (token : option nat) (st : split_state)
  : M split_state :=
  match n with
  | O => fun w => OutOfFuel w
  | S n' =>
      match token with
      | None => ret st
      | Some t =>
          let tokens := store (s_tokens st) (s_position st) (Some t) in
          let position := s_position st + 1 in
          bufsize <-
            (if position >=? s_bufsize st then
               let bufsize := s_bufsize st + NOOSH_TOK_BUFSIZE in
               ok <- realloc (bufsize * sizeof_char_ptr) ;;
               if negb ok then
                 eprintf (lit "noosh: allocation error" ++ LF) ;;
                 exit EXIT_FAILURE
               else ret bufsize
             else ret (s_bufsize st)) ;;
          let '(token', line', save') :=
            strtok None NOOSH_TOK_DELIM (s_line st) (s_save st) in
          split_loop n' token' (mkSplit line' save' bufsize position tokens)
      end
  end.

(** The result is the token array and the line's buffer, which the tokens
    point into and which [strtok] has written to. *)
Definition noosh_split_line (line : memory) : M (array * memory) :=
  let bufsize := NOOSH_TOK_BUFSIZE in
  let position := 0 in
  tokens <- malloc (bufsize * sizeof_char_ptr) ;;
  if negb tokens then
    eprintf (lit "noosh: allocation error" ++ LF) ;;
    exit EXIT_FAILURE
  else
    let '(token, line1, save) := strtok (Some O) NOOSH_TOK_DELIM line O in
    st <- split_loop (S (length line)) token
            (mkSplit line1 save bufsize position []) ;;
    ret (store (s_tokens st) (s_position st) None, s_line st).

(** *** The loop and [main] *)

(** [do ... while (status)]; [n] bounds the number of iterations. *)
Fixpoint noosh_loop (n : nat) : M unit :=
  match n with
  | O => fun w => OutOfFuel w
  | S n' =>
      printf (lit "> ") ;;
      line <- noosh_read_line ;;
      r <- noosh_split_line line ;;
      let '(args, line') := r in
      status <- noosh_execute line' args ;;
      if negb (status =? 0) then noosh_loop n' else ret tt
  end.

(** [main]: the value returned is the process's exit code. *)
Definition main (n : nat) : M Z :=
  noosh_loop n ;;
  ret EXIT_SUCCESS.

End Shell.

(* ================================================================== *)
(** ** [src/noosh.c]: the configuration, the prompt and [pwd] *)

(** [struct ColorConfig] *)
Record ColorConfig := mkColorConfig {
  username_color : Z;
  cwd_color : Z
}.

Definition HOST_NAME_MAX : Z := 64.
Definition INT_MIN : Z := -2147483648.

(** What [src/noosh.c] asks of its host beside what [src/main.c] asks:
    the target of a symbolic link, [dirname], the content of a file opened
    for reading, the host's name as [gethostname] leaves it in a buffer of
    that size ([None] when it leaves no terminated string there), and the
    value of an environment variable ([None] for [NULL]). *)
Record desk := mkDesk {
  d_readlink : world -> str -> sys str;
  d_dirname : str -> str;
  d_fopen : world -> str -> sys (list ascii);
  d_gethostname : world -> Z -> option str;
  d_getenv : world -> str -> option str
}.

(** [fgets (line, size, file)] reads at most [size - 1] characters, up to
    and with the first newline, and ends them with NUL; it returns [NULL],
    here [None], when the file is at its end.  The result is the buffer
    and what is left of the file. *)
Fixpoint fgets_chars (n : nat) (stream : list ascii)
  : list ascii * list ascii :=
  match n, stream with
  | O, _ => ([], stream)
  | _, [] => ([], [])
  | S n', c :: rest =>
      if Ascii.eqb c "010"%char then ([c], rest)
      else let '(l, r) := fgets_chars n' rest in (c :: l, r)
  end.

Definition fgets (size : Z) (stream : list ascii)
  : option (memory * list ascii) :=
  match stream with
  | [] => None
  | _ :: _ =>
      let '(l, r) := fgets_chars (Z.to_nat (size - 1)) stream in
      Some (l ++ [NUL], r)
  end.

(** [atoi]: white space, a sign, decimal digits; what follows the digits
    is ignored.  The behaviour is undefined, here [None], when [int]
    cannot hold the number. *)
Definition isspace (c : ascii) : bool :=
  in_set c [" "%char; "009"%char; "010"%char; "011"%char; "012"%char;
            "013"%char].

Definition digit_of (c : ascii) : option Z :=
  let n := Z.of_nat (nat_of_ascii c) in
  if (48 <=? n) && (n <=? 57) then Some (n - 48) else None.

Fixpoint atoi_digits (s : str) (acc : Z) : Z :=
  match s with
  | [] => acc
  | c :: s' =>
      match digit_of c with
      | Some d => atoi_digits s' (10 * acc + d)
      | None => acc
      end
  end.

Definition atoi_signed (s : str) : Z :=
  match s with
  | c :: s' =>
      if Ascii.eqb c "-"%char then - atoi_digits s' 0
      else if Ascii.eqb c "+"%char then atoi_digits s' 0
      else atoi_digits s 0
  | [] => 0
  end.

Fixpoint atoi_value (s : str) : Z :=
  match s with
  | [] => 0
  | c :: s' => if isspace c then atoi_value s' else atoi_signed s
  end.

Definition atoi (s : str) : option Z :=
  let v := atoi_value s in
  if (INT_MIN <=? v) && (v <=? INT_MAX) then Some v else None.

(** [%d] of [printf]. *)
Definition fmt_d (z : Z) : str :=
  list_ascii_of_string (NilZero.string_of_int (Z.to_int z)).

Definition ESC : ascii := "027"%char.

(** The text of the prompt of [src/noosh.c]. *)
Definition prompt_text (config : ColorConfig) (username hostname cwd : str)
  : str :=
  [ESC] ++ lit "[0;" ++ fmt_d (username_color config) ++ lit "m" ++ username
  ++ lit "@" ++ [ESC] ++ lit "[0;" ++ fmt_d (username_color config) ++ lit "m"
  ++ hostname ++ [ESC] ++ lit "[0m:" ++ [ESC] ++ lit "[0;"
  ++ fmt_d (cwd_color config) ++ lit "m" ++ cwd ++ [ESC] ++ lit "[0m$ ".

Module NooshC.
Section Shell.

Variable H : host.

(** [get_cwd]: the working directory in a fresh buffer; the process exits
    when it cannot be resolved. *)
Definition get_cwd : M str :=
  buf <- malloc H (1 * PATH_MAX) ;;
  (if negb buf then
     perror H (lit "noosh: allocation error" ++ LF) ;;
     exit EXIT_FAILURE
   else ret tt) ;;
  cwd <- getcwd H PATH_MAX ;;
  match cwd with
  | Some d => ret d
  | None => perror H (lit "noosh") ;; exit EXIT_FAILURE
  end.

Definition noosh_pwd (m : memory) (args : array) : M Z :=
  d <- get_cwd ;;
  printf (d ++ LF) ;;
  ret 1.

Variable D : desk.

(** [readlink (path, buf, size)]: the bytes of the link's target that fit,
    or [None] for -1. *)
Definition readlink (path : str) (size : Z) : M (option str) :=
  fun w =>
    match d_readlink D w path with
    | Done target => Ret (Some (firstn (Z.to_nat size) target)) w
    | Fail e => Ret None (set_errno e w)
    end.

(** [fopen (path, "r")]: the content to read, or [None] for [NULL]. *)
Definition fopen (path : str) : M (option (list ascii)) :=
  fun w =>
    match d_fopen D w path with
    | Done content => Ret (Some content) w
    | Fail e => Ret None (set_errno e w)
    end.

Definition gethostname (size : Z) : M (option str) :=
  fun w => Ret (d_gethostname D w size) w.

Definition getenv (name : str) : M (option str) :=
  fun w => Ret (d_getenv D w name) w.

(** [while (fgets (line, sizeof (line), file))] of [read_config]; [n]
    bounds the number of reads.  The result is [None] where the behaviour
    of the C code is undefined: [atoi] of the null pointer that [strtok]
    returns for a line without a second field, or of a number too large
    for [int]. *)
Fixpoint config_loop (n : nat) (file : list ascii) (config : ColorConfig)
  : M (option ColorConfig) :=
  match n with
  | O => fun w => OutOfFuel w
  | S n' =>
      match fgets 128 file with
      | None => ret (Some config)
      | Some (line, file') =>
          let '(token, line1, save) := strtok (Some O) (lit "=") line O in
          match token with
          | Some t =>
              let '(token2, line2, _) := strtok None (lit "=") line1 save in
              match token2 with
              | None => ret None
              | Some v =>
                  match atoi (string_at line2 v) with
                  | None => ret None
                  | Some value =>
                      if strcmp (string_at line2 t) (lit "username_color") =? 0
                      then
                        config_loop n' file'
                          (mkColorConfig value (cwd_color config))
                      else if strcmp (string_at line2 t) (lit "cwd_color") =? 0
                      then
                        config_loop n' file'
                          (mkColorConfig (username_color config) value)
                      else config_loop n' file' config
                  end
              end
          | None => config_loop n' file' config
          end
      end
  end.

Definition read_config (filename : str) : M (option ColorConfig) :=
  let config := mkColorConfig 32 35 in
  len <- readlink (lit "/proc/self/exe") (PATH_MAX - 1) ;;
  match len with
  | None =>
      perror H (lit "Error finding executable path") ;;
      ret (Some config)
  | Some exePath =>
      let dirPath := d_dirname D exePath in
      let configPath :=
        firstn (Z.to_nat (PATH_MAX - 1)) (dirPath ++ lit "/" ++ filename) in
      file <- fopen configPath ;;
      match file with
      | None =>
          perror H (lit "Error opening config file") ;;
          ret (Some config)
      | Some content => config_loop (S (length content)) content config
      end
  end.

(** The builtins and the dispatch of [src/noosh.c]: the code of
    [src/main.c] with this file's [noosh_pwd]. *)
Definition builtin_func : list (memory -> array -> M Z) :=
  [noosh_cd H; noosh_pwd; noosh_help; noosh_exit].

Definition noosh_execute (m : memory) (args : array) : M Z :=
  match slot args 0 with
  | None =>
      (* an empty command was entered *)
      ret 1
  | Some p =>
      r <- for_loop (Z.to_nat noosh_num_builtins) 0 noosh_num_builtins
             (fun i =>
                if strcmp (string_at m p) (nth (Z.to_nat i) builtin_str []) =? 0
                then
                  v <- nth (Z.to_nat i) builtin_func noosh_exit m args ;;
                  ret (Some v)
                else ret None) ;;
      match r with
      | Some v => ret v
      | None => noosh_launch H m args
      end
  end.

(** [do ... while (status)] of [noosh_loop]; [n] bounds the number of
    iterations. *)
Fixpoint prompt_loop (n : nat) (config : ColorConfig)
         (username hostname : str) : M unit :=
  match n with
  | O => fun w => OutOfFuel w
  | S n' =>
      cwd <- get_cwd ;;
      printf (prompt_text config username hostname cwd) ;;
      line <- noosh_read_line H ;;
      r <- noosh_split_line H line ;;
      let '(args, line') := r in
      status <- noosh_execute line' args ;;
      if negb (status =? 0) then prompt_loop n' config username hostname
      else ret tt
  end.

(** [noosh_loop]: [None] where the behaviour of the C code is undefined,
    which is where [read_config] is, where [gethostname] leaves no string
    to print, and where [USER] is not set and [printf] is given a null
    pointer for [%s]. *)
Definition noosh_loop (n : nat) : M (option unit) :=
  config <- read_config (lit "noosh_config.txt") ;;
  hostname <- gethostname HOST_NAME_MAX ;;
  username <- getenv (lit "USER") ;;
  match config, hostname, username with
  | Some config, Some hostname, Some username =>
      prompt_loop n config username hostname ;;
      ret (Some tt)
  | _, _, _ => ret None
  end.

Definition main (n : nat) : M (option Z) :=
  r <- noosh_loop n ;;
  match r with
  | Some _ => ret (Some EXIT_SUCCESS)
  | None => ret None
  end.

End Shell.
End NooshC.

(* ================================================================== *)
(** ** The vocabulary of the specification *)

(** The token array of [noosh_split_line] for these pointers: one slot per
    token and the [NULL] that ends it. *)
Definition array_of (ptrs : list nat) : array := map Some ptrs ++ [None].

(** The strings of the tokens an array holds. *)
Definition token_strings (m : memory) (ptrs : list nat) : list str :=
  map (string_at m) ptrs.

(** The maximal runs of non-delimiter characters of a string, in order.
    [cur] is the run being read, its last character first. *)
Definition flush (cur : str) : list str :=
  match cur with
  | [] => []
  | _ :: _ => [rev cur]
  end.

Fixpoint runs (cur : str) (s : str) : list str :=
  match s with
  | [] => flush cur
  | c :: s' =>
      if is_delim c then flush cur ++ runs [] s' else runs (c :: cur) s'
  end.

Definition maximal_runs (s : str) : list str := runs [] s.

Definition all_delim (d : str) : Prop := Forall (fun c => is_delim c = true) d.
Definition no_delim (t : str) : Prop := Forall (fun c => is_delim c = false) t.

(** The same, as a decomposition of the string: delimiters, a run that
    the end of the string or a delimiter follows, and the rest. *)
Inductive Runs : str -> list str -> Prop :=
| Runs_none d :
    all_delim d -> Runs d []
| Runs_last d t :
    all_delim d -> t <> [] -> no_delim t -> Runs (d ++ t) [t]
| Runs_more d t c s ts :
    all_delim d -> t <> [] -> no_delim t -> is_delim c = true ->
    Runs s ts -> Runs (d ++ t ++ c :: s) (t :: ts).

(** Tokens joined with single spaces. *)
Fixpoint join (ts : list str) : str :=
  match ts with
  | [] => []
  | [t] => t
  | t :: ts' => t ++ " "%char :: join ts'
  end.

(** [m'] is [m] with some delimiters overwritten by NUL. *)
Definition refines (m m' : memory) : Prop :=
  Forall2 (fun a b => b = a \/ (is_delim a = true /\ b = NUL)) m m'.

(** The capacity, in slots, after [k] reallocations. *)
Definition capacity (k : nat) : Z :=
  NOOSH_TOK_BUFSIZE + NOOSH_TOK_BUFSIZE * Z.of_nat k.

(** The allocator calls of a tokenization that grows its array [q] times. *)
Definition split_calls (q : nat) : list call :=
  Malloc (capacity 0 * sizeof_char_ptr)
  :: map (fun k => Realloc (capacity k * sizeof_char_ptr)) (seq 1 q).

Definition log_all (cs : list call) (w : world) : world :=
  fold_left (fun w c => log c w) cs w.

(** The host grants these allocator calls, made one after the other. *)
Definition request_size (c : call) : Z :=
  match c with
  | Malloc size | Realloc size => size
  | _ => 0
  end.

Fixpoint granted (H : host) (w : world) (cs : list call) : Prop :=
  match cs with
  | [] => True
  | c :: cs' =>
      h_alloc H w (request_size c) = Done tt /\ granted H (log c w) cs'
  end.

(** A sequence of capacities grows geometrically when consecutive
    capacities are in one ratio. *)
Definition geometric (caps : list Z) : Prop :=
  forall i a b c,
    nth_error caps i = Some a ->
    nth_error caps (S i) = Some b ->
    nth_error caps (S (S i)) = Some c ->
    b * b = a * c.

(** The diagnostic of [cd] without a directory. *)
Definition cd_usage : str :=
  lit "noosh: expected argument to " ++ [DQUOTE] ++ lit "cd" ++ [DQUOTE] ++ LF.

(** The diagnostic of a refused allocation. *)
Definition alloc_diag : str := lit "noosh: allocation error" ++ LF.

(** A host that grants every allocation. *)
Definition generous (H : host) : Prop :=
  forall w size, h_alloc H w size = Done tt.

(** The first line of an input, without its newline, and what follows
    it. *)
Fixpoint line_of (input : list ascii) : str :=
  match input with
  | [] => []
  | c :: rest => if Ascii.eqb c "010"%char then [] else c :: line_of rest
  end.

Fixpoint after_line (input : list ascii) : list ascii :=
  match input with
  | [] => []
  | c :: rest => if Ascii.eqb c "010"%char then rest else after_line rest
  end.

(** One iteration of the loop at the end of the input, on a host that
    grants the two allocations: the prompt, the line buffer, the token
    array. *)
Definition eof_step (w : world) : world :=
  log (Malloc (NOOSH_TOK_BUFSIZE * sizeof_char_ptr))
      (log (Malloc (1 * NOOSH_RL_BUFSIZE)) (put_out (lit "> ") w)).

(** The child ends: one of its reports is an exit or a death by signal. *)
Definition child_ends (reports : list wstatus) : bool :=
  existsb (fun s => WIFEXITED s || WIFSIGNALED s) reports.

(** Every state change of the child [pid] is delivered to [waitpid]. *)
Definition delivers (H : host) (pid : Z) : Prop :=
  forall w, h_waitpid H w pid = Done tt.

(** The capacities, in slots, that a log of allocator calls asks for. *)
Definition capacities_of (cs : list call) : list Z :=
  map (fun c => request_size c / sizeof_char_ptr) cs.

(** A line of 128 one-letter tokens. *)
Definition line128 : str := concat (repeat (lit "a ") 128).

(** A line with a NUL byte in it: [a], NUL, [b], a space, [c]. *)
Definition nul_line : str := lit "a" ++ NUL :: lit "b c".

(** The world a computation returns in. *)
Definition world_of {A} (r : result A) (otherwise : world) : world :=
  match r with
  | Ret _ w => w
  | _ => otherwise
  end.

(** Hosts and worlds to run the shell on. *)
Definition calm_host : host :=
  mkHost (fun _ _ => Done tt)
         (fun _ path => Done path)
         (fun _ _ => Done tt)
         (fun _ => Done 100%positive)
         (fun _ _ _ => Done [WStopped 19; WExited 3])
         (fun _ => lit "error")
         (fun _ _ => Done tt)
         (fun _ => WStopped 19)
         (fun _ => O).

Definition boot (input : str) : world :=
  mkWorld input [] [] (lit "/") 0 [] [].

(** A host on which no directory can be entered or resolved; [ENOENT] is
    2. *)
Definition lost_host : host :=
  mkHost (fun _ _ => Done tt)
         (fun _ _ => Fail 2)
         (fun _ _ => Fail 2)
         (fun _ => Done 100%positive)
         (fun _ _ _ => Done [WExited 0])
         (fun _ => lit "No such file or directory")
         (fun _ _ => Done tt)
         (fun _ => WStopped 19)
         (fun _ => O).

(** A host on which no program is found, and whose standard output is a
    pipe: what the shell has written is still in the buffer. *)
Definition bare_host : host :=
  mkHost (fun _ _ => Done tt)
         (fun _ path => Done path)
         (fun _ _ => Done tt)
         (fun _ => Done 100%positive)
         (fun _ _ _ => Fail 2)
         (fun _ => lit "No such file or directory")
         (fun _ _ => Done tt)
         (fun _ => WStopped 19)
         (fun w => length (w_stdout w)).

(** A host that grants no allocation of more than 1024 bytes: the token
    array can grow once, to 128 slots, and no further; [ENOMEM] is 12. *)
Definition tight_host : host :=
  mkHost (fun _ size => if size <=? 1024 then Done tt else Fail 12)
         (fun _ path => Done path)
         (fun _ _ => Done tt)
         (fun _ => Done 100%positive)
         (fun _ _ _ => Done [WExited 0])
         (fun _ => lit "Cannot allocate memory")
         (fun _ _ => Done tt)
         (fun _ => WStopped 19)
         (fun _ => O).

(** The capacity of the line buffer, in bytes, after [k] reallocations,
    and the allocator calls of a read that grows the buffer [q] times. *)
Definition rl_capacity (k : nat) : Z :=
  NOOSH_RL_BUFSIZE + NOOSH_RL_BUFSIZE * Z.of_nat k.

Definition read_calls (q : nat) : list call :=
  Malloc (1 * NOOSH_RL_BUFSIZE)
  :: map (fun k => Realloc (rl_capacity k)) (seq 1 q).

(** The world a computation ends in, however it ends. *)
Definition final_world {A} (r : result A) : world :=
  match r with
  | Ret _ w | Exited _ w | Execed _ w | Hang w | OutOfFuel w => w
  end.

(** The calls that create, replace or await a process. *)
Definition process_call (c : call) : bool :=
  match c with
  | Fork | Execvp _ _ | Waitpid _ => true
  | _ => false
  end.

(** Hosts on which [SIGCHLD] is ignored: a state change that ends the
    child is not kept for [waitpid], which fails with [ECHILD]; a stop is
    delivered.  The program started ends at once with status 0.  On the
    first host the [int] that was never written reads as a stop, on the
    second as an exit. *)
Definition ECHILD : Z := 10.

Definition sigchld_ignored (w : world) (pid : Z) : sys unit :=
  match w_child w with
  | s :: _ => if WIFEXITED s || WIFSIGNALED s then Fail ECHILD else Done tt
  | [] => Fail ECHILD
  end.

Definition heedless_host : host :=
  mkHost (fun _ _ => Done tt)
         (fun _ path => Done path)
         (fun _ _ => Done tt)
         (fun _ => Done 100%positive)
         (fun _ _ _ => Done [WExited 0])
         (fun _ => lit "No child processes")
         sigchld_ignored
         (fun _ => WStopped 19)
         (fun _ => O).

Definition lucky_host : host :=
  mkHost (fun _ _ => Done tt)
         (fun _ path => Done path)
         (fun _ _ => Done tt)
         (fun _ => Done 100%positive)
         (fun _ _ _ => Done [WExited 0])
         (fun _ => lit "No child processes")
         sigchld_ignored
         (fun _ => WExited 0)
         (fun _ => O).

(** A host that refuses every allocation. *)
Definition broke_host : host :=
  mkHost (fun _ _ => Fail 12)
         (fun _ path => Done path)
         (fun _ _ => Done tt)
         (fun _ => Done 100%positive)
         (fun _ _ _ => Done [WExited 0])
         (fun _ => lit "Cannot allocate memory")
         (fun _ _ => Done tt)
         (fun _ => WStopped 19)
         (fun _ => O).

(** An input line of 1030 letters. *)
Definition long_input : list ascii := repeat "a"%char 1030 ++ LF.

(** The tokens at [ptrs] lie in the buffer one after the other from [lo]
    on: each starts at or after the end of the one before it. *)
Fixpoint apart (m : memory) (lo : nat) (ptrs : list nat) : Prop :=
  match ptrs with
  | [] => True
  | b :: rest =>
      (lo <= b)%nat /\ apart m (b + length (string_at m b)) rest
  end.

(** A report that makes the wait loop wait again: neither an exit nor a
    death by signal. *)
Definition keeps_waiting (s : wstatus) : bool :=
  negb (WIFEXITED s) && negb (WIFSIGNALED s).

(** A host on which a started program stops and never ends. *)
Definition stuck_host : host :=
  mkHost (fun _ _ => Done tt)
         (fun _ path => Done path)
         (fun _ _ => Done tt)
         (fun _ => Done 100%positive)
         (fun _ _ _ => Done [WStopped 19])
         (fun _ => lit "error")
         (fun _ _ => Done tt)
         (fun _ => WStopped 19)
         (fun _ => O).

(** A blank line: delimiters other than the newline that ends it. *)
Definition blank (l : str) : Prop :=
  Forall (fun c => is_delim c = true /\ c <> "010"%char) l.

(** A character of a field that [strtok] cuts at the delimiters [d]. *)
Definition field_char (d : str) (c : ascii) : Prop :=
  is_nul c = false /\ in_set c d = false.

(** A character of a field of the configuration file: not the [=] that
    separates the fields, not NUL, not a newline. *)
Definition plain (c : ascii) : Prop :=
  c <> "="%char /\ c <> NUL /\ c <> "010"%char.

(** A line [key=value] of the configuration file, and the assignment it
    makes when [atoi] gives its value as [n]. *)
Definition config_line (e : str * str) : list ascii :=
  fst e ++ "="%char :: snd e ++ ["010"%char].

Definition good_entry (e : str * str) : Prop :=
  fst e <> [] /\ Forall plain (fst e) /\ Forall plain (snd e) /\
  (length (config_line e) <= 127)%nat /\
  exists n, atoi (snd e) = Some n.

Definition assign (config : ColorConfig) (e : str * str) : ColorConfig :=
  match atoi (snd e) with
  | Some n =>
      if list_eq_dec ascii_dec (fst e) (lit "username_color")
      then mkColorConfig n (cwd_color config)
      else if list_eq_dec ascii_dec (fst e) (lit "cwd_color")
      then mkColorConfig (username_color config) n
      else config
  | None => config
  end.

(** The path [read_config] opens: the directory of the executable, a
    slash, the file's name, cut to what [PATH_MAX] bytes hold. *)
Definition config_path (D : desk) (target filename : str) : str :=
  firstn (Z.to_nat (PATH_MAX - 1))
         (d_dirname D (firstn (Z.to_nat (PATH_MAX - 1)) target)
          ++ lit "/" ++ filename).

(** A desk on which the link to the executable cannot be read. *)
Definition lost_desk : desk :=
  mkDesk (fun _ _ => Fail 2)
         (fun _ => lit "/usr/bin")
         (fun _ _ => Fail 2)
         (fun _ _ => Some (lit "box"))
         (fun _ _ => Some (lit "ann")).

(** The lines of a configuration file. *)
Definition sample_entries : list (str * str) :=
  [(lit "username_color", lit "31"); (lit "shell", lit "7");
   (lit "cwd_color", lit "34"); (lit "username_color", lit " 36 ")].

(** Desks to run [src/noosh.c] on: one whose configuration file has this
    content, and one without a configuration file. *)
Definition desk_with (content : list ascii) : desk :=
  mkDesk (fun _ _ => Done (lit "/usr/bin/noosh"))
         (fun _ => lit "/usr/bin")
         (fun _ _ => Done content)
         (fun _ _ => Some (lit "box"))
         (fun _ _ => Some (lit "ann")).

Definition bare_desk : desk :=
  mkDesk (fun _ _ => Done (lit "/usr/bin/noosh"))
         (fun _ => lit "/usr/bin")
         (fun _ _ => Fail 2)
         (fun _ _ => Some (lit "box"))
         (fun _ _ => Some (lit "ann")).

(* ================================================================== *)
(** ** Characters and C strings *)

Lemma is_nul_true (c : ascii) : is_nul c = true <-> c = NUL.
Proof. unfold is_nul. apply Ascii.eqb_eq. Qed.

Lemma delim_not_nul (c : ascii) : is_delim c = true -> is_nul c = false.
Proof.
  intros Hd. destruct (is_nul c) eqn:E; [|reflexivity].
  apply is_nul_true in E. subst c. discriminate Hd.
Qed.

Lemma is_delim_iff (c : ascii) :
  is_delim c = true <->
  c = " "%char \/ c = "009"%char \/ c = "013"%char \/ c = "010"%char
  \/ c = "007"%char.
Proof.
  unfold is_delim, in_set, NOOSH_TOK_DELIM. simpl.
  rewrite !orb_true_iff, !Ascii.eqb_eq. intuition discriminate.
Qed.

Lemma strcmp_refl (a : str) : strcmp a a = 0.
Proof.
  induction a as [|x a IH]; simpl; [reflexivity|].
  now rewrite Ascii.eqb_refl.
Qed.

Lemma nat_of_ascii_pos (x : ascii) : x <> NUL -> (0 < nat_of_ascii x)%nat.
Proof.
  intros Hx. destruct (nat_of_ascii x) eqn:E; [|lia].
  exfalso. apply Hx. rewrite <- (ascii_nat_embedding x), E. reflexivity.
Qed.

Lemma c_str_no_nul (s : list ascii) : Forall (fun c => is_nul c = false) (c_str s).
Proof.
  induction s as [|c s IH]; simpl; [constructor|].
  destruct (is_nul c) eqn:E; constructor; assumption.
Qed.

Lemma c_str_clean (s : str) :
  Forall (fun c => is_nul c = false) s -> c_str s = s.
Proof.
  induction 1 as [|c s Hc _ IH]; simpl; [reflexivity|].
  now rewrite Hc, IH.
Qed.

Lemma c_str_app_nul (a rest : list ascii) :
  Forall (fun c => is_nul c = false) a -> c_str (a ++ NUL :: rest) = a.
Proof.
  induction 1 as [|c s Hc _ IH]; simpl; [reflexivity|].
  now rewrite Hc, IH.
Qed.

Lemma no_delim_no_nul_of_delim (d : str) :
  all_delim d -> Forall (fun c => is_nul c = false) d.
Proof.
  unfold all_delim. intros Hd. eapply Forall_impl; [|exact Hd].
  intros c. apply delim_not_nul.
Qed.

(** What is equal to a string is unequal to none: [strcmp] is 0 exactly on
    equal strings without NUL. *)
Lemma strcmp_eq (a b : str) :
  Forall (fun c => is_nul c = false) a ->
  Forall (fun c => is_nul c = false) b ->
  strcmp a b = 0 -> a = b.
Proof.
  intros Ha. revert b.
  induction Ha as [|x a Hx Ha IH]; intros b Hb; destruct Hb as [|y b Hy Hb];
    simpl; intros E.
  - reflexivity.
  - exfalso. assert (y <> NUL) by (intros ->; discriminate Hy).
    pose proof (nat_of_ascii_pos H). lia.
  - exfalso. assert (x <> NUL) by (intros ->; discriminate Hx).
    pose proof (nat_of_ascii_pos H). lia.
  - destruct (Ascii.eqb x y) eqn:Exy.
    + apply Ascii.eqb_eq in Exy. subst y. f_equal. now apply IH.
    + exfalso. apply Ascii.eqb_neq in Exy. apply Exy.
      rewrite <- (ascii_nat_embedding x), <- (ascii_nat_embedding y).
      f_equal. lia.
Qed.

(* ================================================================== *)
(** ** Maximal runs *)

Lemma flush_rev (t : str) : t <> [] -> flush (rev t) = [t].
Proof.
  intros Ht. destruct (rev t) as [|c r] eqn:E.
  - exfalso. apply Ht. rewrite <- (rev_involutive t), E. reflexivity.
  - change (flush (c :: r)) with [rev (c :: r)].
    rewrite <- E, rev_involutive. reflexivity.
Qed.

Lemma runs_delims (d u : str) :
  all_delim d -> runs [] (d ++ u) = runs [] u.
Proof.
  induction 1 as [|c d Hc _ IH]; simpl; [reflexivity|].
  now rewrite Hc.
Qed.

Lemma runs_run (t u cur : str) :
  no_delim t -> runs cur (t ++ u) = runs (rev t ++ cur) u.
Proof.
  intros Ht. revert cur.
  induction Ht as [|c t Hc _ IH]; intros cur; simpl; [reflexivity|].
  rewrite Hc, IH, <- app_assoc. reflexivity.
Qed.

Lemma runs_last (d t : str) :
  all_delim d -> t <> [] -> no_delim t -> maximal_runs (d ++ t) = [t].
Proof.
  intros Hd Hne Ht. unfold maximal_runs.
  rewrite runs_delims by assumption.
  rewrite <- (app_nil_r t) at 1. rewrite runs_run by assumption.
  simpl. rewrite app_nil_r. now apply flush_rev.
Qed.

Lemma runs_more (d t u : str) (c : ascii) :
  all_delim d -> t <> [] -> no_delim t -> is_delim c = true ->
  maximal_runs (d ++ t ++ c :: u) = t :: maximal_runs u.
Proof.
  intros Hd Hne Ht Hc. unfold maximal_runs.
  rewrite runs_delims, runs_run by assumption.
  simpl. rewrite Hc, app_nil_r, flush_rev by assumption. reflexivity.
Qed.

Lemma Runs_unique (s : str) (ts : list str) :
  Runs s ts -> maximal_runs s = ts.
Proof.
  induction 1 as [d Hd|d t Hd Hne Ht|d t c s ts Hd Hne Ht Hc _ IH].
  - rewrite <- (app_nil_r d). unfold maximal_runs.
    now rewrite runs_delims.
  - now apply runs_last.
  - rewrite runs_more by assumption. now rewrite IH.
Qed.

Lemma Runs_cons_delim (c : ascii) (s : str) (ts : list str) :
  is_delim c = true -> Runs s ts -> Runs (c :: s) ts.
Proof.
  intros Hc HR.
  destruct HR as [d Hd|d t Hd Hne Ht|d t c' s ts Hd Hne Ht Hc' HR].
  - apply Runs_none. now constructor.
  - apply (@Runs_last (c :: d) t); try assumption. now constructor.
  - apply (@Runs_more (c :: d) t c' s ts); try assumption. now constructor.
Qed.

Lemma Runs_cons_run (c : ascii) (s : str) (ts : list str) :
  is_delim c = false -> Runs s ts -> exists ts', Runs (c :: s) ts'.
Proof.
  intros Hc HR.
  assert (Hone : no_delim [c]) by (repeat constructor; assumption).
  assert (Hnil : all_delim []) by constructor.
  destruct HR as [d Hd|d t Hd Hne Ht|d t c' s' ts' Hd Hne Ht Hc' HR'].
  - destruct d as [|c' d'].
    + exists [[c]]. now apply (@Runs_last [] [c]).
    + inversion Hd; subst. exists [[c]].
      apply (@Runs_more [] [c] c' d' []); try assumption; try discriminate.
      now apply Runs_none.
  - destruct d as [|c' d'].
    + exists [c :: t].
      apply (@Runs_last [] (c :: t)); try assumption; try discriminate.
      now constructor.
    + inversion Hd; subst. exists [[c]; t].
      apply (@Runs_more [] [c] c' (d' ++ t) [t]); try assumption;
        try discriminate.
      now apply Runs_last.
  - destruct d as [|c0 d'].
    + exists ((c :: t) :: ts').
      apply (@Runs_more [] (c :: t) c' s' ts'); try assumption;
        try discriminate.
      now constructor.
    + inversion Hd; subst. exists ([c] :: t :: ts').
      apply (@Runs_more [] [c] c0 (d' ++ t ++ c' :: s') (t :: ts'));
        try assumption; try discriminate.
      now apply Runs_more.
Qed.

Lemma Runs_maximal_runs (s : str) : Runs s (maximal_runs s).
Proof.
  assert (Hex : exists ts, Runs s ts).
  { induction s as [|c s [ts IH]].
    - exists []. apply Runs_none. constructor.
    - destruct (is_delim c) eqn:Hc.
      + exists ts. now apply Runs_cons_delim.
      + now apply Runs_cons_run with (ts := ts). }
  destruct Hex as [ts HR]. now rewrite (Runs_unique HR).
Qed.

(** Every run is non-empty and holds no delimiter. *)
Lemma Runs_tokens (s : str) (ts : list str) :
  Runs s ts -> Forall (fun t => t <> [] /\ no_delim t) ts.
Proof.
  induction 1; repeat constructor; assumption.
Qed.

(** No run when every character is a delimiter. *)
Lemma runs_all_delim (d : str) : all_delim d -> maximal_runs d = [].
Proof. intros Hd. apply Runs_unique. now apply Runs_none. Qed.

(** Joining runs with single spaces gives a string with these runs. *)
Lemma Runs_join (ts : list str) :
  Forall (fun t => t <> [] /\ no_delim t) ts -> Runs (join ts) ts.
Proof.
  induction 1 as [|t ts [Hne Ht] Hts IH].
  - apply Runs_none. constructor.
  - destruct ts as [|t' ts'].
    + apply (@Runs_last [] t); try assumption. constructor.
    + change (join (t :: t' :: ts'))
        with ([] ++ t ++ " "%char :: join (t' :: ts')).
      apply Runs_more; try assumption; [constructor|reflexivity].
Qed.

(* ================================================================== *)
(** ** Buffers, [strspn], [strcspn] and [strtok] *)

Lemma peek_hd (s : memory) (k : nat) : peek s k = hd NUL (skipn k s).
Proof.
  revert s. induction k as [|k IH]; intros [|c s]; simpl; try reflexivity.
  apply IH.
Qed.

Lemma peek_skipn (m : memory) (p k : nat) :
  peek (skipn p m) k = peek m (p + k).
Proof. unfold peek. apply nth_skipn. Qed.

Lemma peek_nul_c_str (s : memory) (k : nat) :
  is_nul (peek s k) = true -> c_str (skipn k s) = [].
Proof.
  rewrite peek_hd. destruct (skipn k s) as [|c r]; simpl; [reflexivity|].
  now intros ->.
Qed.

Lemma peek_in_range (s : memory) (k : nat) :
  is_nul (peek s k) = false -> (k < length s)%nat.
Proof.
  intros Hk. destruct (Nat.lt_ge_cases k (length s)) as [Hlt|Hge]; [exact Hlt|].
  unfold peek in Hk. rewrite nth_overflow in Hk by exact Hge. discriminate Hk.
Qed.

Lemma skipn_peek_cons (s : memory) (n : nat) :
  (n < length s)%nat -> skipn n s = peek s n :: skipn (S n) s.
Proof.
  revert s. induction n as [|n IH]; intros [|c s] Hn; simpl in *; try lia.
  - reflexivity.
  - apply IH. lia.
Qed.

Lemma poke_split (s : memory) (n : nat) (c : ascii) :
  (n < length s)%nat -> poke s n c = firstn n s ++ c :: skipn (S n) s.
Proof.
  revert n. induction s as [|x s IH]; intros [|n] Hn; simpl in *; try lia.
  - reflexivity.
  - f_equal. apply IH. lia.
Qed.

Lemma skipn_poke (m : memory) (b n : nat) (c : ascii) :
  skipn b (poke m (b + n) c) = poke (skipn b m) n c.
Proof.
  revert m. induction b as [|b IH]; intros [|x m]; simpl; try reflexivity.
  apply IH.
Qed.

Lemma skipn_poke_after (m : memory) (e : nat) (c : ascii) :
  skipn (S e) (poke m e c) = skipn (S e) m.
Proof.
  revert m. induction e as [|e IH]; intros [|x m]; simpl; try reflexivity.
  apply (IH m).
Qed.

Lemma refines_refl (m : memory) : refines m m.
Proof. induction m; constructor; auto. Qed.

Lemma refines_trans (a b c : memory) :
  refines a b -> refines b c -> refines a c.
Proof.
  intros Hab. revert c.
  induction Hab as [|x y a b Hxy _ IH]; intros c Hbc; inversion Hbc; subst.
  - constructor.
  - constructor; [|now apply IH].
    match goal with Hy : _ \/ _ |- _ => destruct Hy as [->|[Hd ->]] end.
    + exact Hxy.
    + destruct Hxy as [->|[Hx ->]]; [now right|discriminate Hd].
Qed.

Lemma refines_poke (m : memory) (e : nat) :
  is_delim (peek m e) = true -> refines m (poke m e NUL).
Proof.
  revert e. induction m as [|x m IH]; intros [|e] He; simpl in *.
  - constructor.
  - constructor.
  - constructor; [now right|apply refines_refl].
  - constructor; [now left|now apply IH].
Qed.

Lemma refines_skipn (m m' : memory) (p : nat) :
  refines m m' -> refines (skipn p m) (skipn p m').
Proof.
  intros Hr. revert p.
  induction Hr as [|x y m m' Hxy Hr IH]; intros [|p]; simpl.
  - constructor.
  - constructor.
  - now constructor.
  - apply IH.
Qed.

Lemma refines_length (m m' : memory) : refines m m' -> length m' = length m.
Proof. intros Hr. symmetry. exact (Forall2_length Hr). Qed.

(** A string without delimiters is not touched by the overwriting. *)
Lemma refines_c_str (s s' : memory) :
  refines s s' -> no_delim (c_str s) -> c_str s' = c_str s.
Proof.
  induction 1 as [|x y s s' Hxy _ IH]; simpl; [reflexivity|].
  destruct (is_nul x) eqn:Ex.
  - intros _. destruct Hxy as [->|[_ ->]]; [now rewrite Ex|reflexivity].
  - intros Hclean. inversion Hclean as [|? ? Hx Hrest]; subst.
    destruct Hxy as [->|[Hd _]]; [|congruence].
    rewrite Ex. f_equal. now apply IH.
Qed.

Lemma c_str_app_clean (a b : list ascii) :
  Forall (fun c => is_nul c = false) a -> c_str (a ++ b) = a ++ c_str b.
Proof.
  induction 1 as [|c a Hc _ IH]; simpl; [reflexivity|].
  now rewrite Hc, IH.
Qed.

Lemma strspn_runs (s : memory) :
  maximal_runs (c_str (skipn (strspn s NOOSH_TOK_DELIM) s))
  = maximal_runs (c_str s).
Proof.
  induction s as [|c s IH]; simpl; [reflexivity|].
  destruct (is_nul c) eqn:En; [simpl; now rewrite En|].
  fold (is_delim c). destruct (is_delim c) eqn:Ed; simpl.
  - rewrite IH. unfold maximal_runs. simpl. now rewrite Ed.
  - now rewrite En.
Qed.

Lemma strspn_stop (s : memory) :
  is_nul (peek s (strspn s NOOSH_TOK_DELIM)) = false ->
  is_delim (peek s (strspn s NOOSH_TOK_DELIM)) = false.
Proof.
  unfold peek. induction s as [|c s IH]; simpl; [discriminate|].
  destruct (is_nul c) eqn:En; [simpl; congruence|].
  fold (is_delim c). destruct (is_delim c) eqn:Ed; simpl; auto.
Qed.

Lemma strcspn_run (s : memory) :
  let t := firstn (strcspn s NOOSH_TOK_DELIM) s in
  no_delim t /\ Forall (fun c => is_nul c = false) t.
Proof.
  induction s as [|c s [IH1 IH2]]; simpl; [split; constructor|].
  destruct (is_nul c) eqn:En; [split; constructor|].
  fold (is_delim c). destruct (is_delim c) eqn:Ed; simpl.
  - split; constructor.
  - split; constructor; assumption.
Qed.

Lemma strcspn_pos (s : memory) :
  is_nul (peek s 0) = false -> is_delim (peek s 0) = false ->
  (0 < strcspn s NOOSH_TOK_DELIM)%nat.
Proof.
  unfold peek. destruct s as [|c s]; simpl; [discriminate|].
  intros -> Hd. fold (is_delim c). rewrite Hd. lia.
Qed.

Lemma strcspn_stop (s : memory) :
  is_nul (peek s (strcspn s NOOSH_TOK_DELIM)) = false ->
  is_delim (peek s (strcspn s NOOSH_TOK_DELIM)) = true.
Proof.
  unfold peek. induction s as [|c s IH]; simpl; [discriminate|].
  destruct (is_nul c) eqn:En; [simpl; congruence|].
  fold (is_delim c). destruct (is_delim c) eqn:Ed; simpl; auto.
Qed.

(** One call of [strtok (NULL, NOOSH_TOK_DELIM)] with the saved pointer at
    [p]: no token when the rest of the string has no run; otherwise the
    token is the first run, ended in the buffer by a NUL, and the saved
    pointer is behind it. *)
Lemma strtok_spec (m : memory) (p : nat) :
  match strtok None NOOSH_TOK_DELIM m p with
  | (None, m1, _) =>
      m1 = m /\ maximal_runs (c_str (skipn p m)) = []
  | (Some b, m1, p1) =>
      (p < p1)%nat /\ (p < length m)%nat /\ refines m m1 /\
      string_at m1 b <> [] /\ no_delim (string_at m1 b) /\
      maximal_runs (c_str (skipn p m))
      = string_at m1 b :: maximal_runs (c_str (skipn p1 m1))
  end.
Proof.
  unfold strtok.
  destruct (is_nul (peek m p)) eqn:E0.
  { split; [reflexivity|]. now rewrite (peek_nul_c_str _ _ E0). }
  set (k := strspn (skipn p m) NOOSH_TOK_DELIM).
  pose proof (strspn_runs (skipn p m)) as Hspn. fold k in Hspn.
  pose proof (strspn_stop (skipn p m)) as Hstop. fold k in Hstop.
  rewrite peek_skipn in Hstop.
  rewrite skipn_skipn, (Nat.add_comm k p) in Hspn.
  destruct (is_nul (peek m (p + k))) eqn:E1.
  { split; [reflexivity|]. rewrite <- Hspn.
    now rewrite (peek_nul_c_str _ _ E1). }
  specialize (Hstop eq_refl).
  set (b := (p + k)%nat) in *.
  set (s1 := skipn b m) in *.
  set (n := strcspn s1 NOOSH_TOK_DELIM).
  destruct (strcspn_run s1) as [Hclean Hnonul]. fold n in Hclean, Hnonul.
  assert (Hpos : (0 < n)%nat).
  { apply strcspn_pos; unfold s1; rewrite peek_skipn, Nat.add_0_r; assumption. }
  assert (Hne : firstn n s1 <> []).
  { assert (Hb : (b < length m)%nat) by now apply peek_in_range.
    assert (Hl : (0 < length s1)%nat) by (unfold s1; rewrite length_skipn; lia).
    destruct s1; [simpl in Hl; lia|]. destruct n; [lia|]. discriminate. }
  assert (Hcs : c_str s1 = firstn n s1 ++ c_str (skipn n s1)).
  { rewrite <- (firstn_skipn n s1) at 1. now apply c_str_app_clean. }
  assert (Hp0 : (p < length m)%nat) by now apply peek_in_range.
  pose proof (strcspn_stop s1) as Hend. fold n in Hend.
  unfold s1 in Hend at 1 2. rewrite peek_skipn in Hend.
  destruct (is_nul (peek m (b + n))) eqn:E2.
  - (* the token reaches the end of the string *)
    assert (Hrest : c_str (skipn n s1) = []).
    { apply peek_nul_c_str. unfold s1. now rewrite peek_skipn. }
    assert (Hat : string_at m b = firstn n s1).
    { unfold string_at. fold s1. now rewrite Hcs, Hrest, app_nil_r. }
    rewrite Hat.
    repeat split; try assumption; try lia; [apply refines_refl|].
    rewrite <- Hspn, Hcs, Hrest, app_nil_r.
    replace (skipn (b + n) m) with (skipn n s1)
      by (unfold s1; rewrite skipn_skipn; f_equal; lia).
    rewrite Hrest.
    apply (@runs_last [] (firstn n s1)); [constructor|assumption|assumption].
  - (* a delimiter ends the token and is overwritten *)
    specialize (Hend eq_refl).
    assert (He : (b + n < length m)%nat) by now apply peek_in_range.
    assert (Hn : (n < length s1)%nat) by (unfold s1; rewrite length_skipn; lia).
    assert (Hat : string_at (poke m (b + n) NUL) b = firstn n s1).
    { unfold string_at. rewrite skipn_poke. fold s1.
      rewrite poke_split by assumption. now apply c_str_app_nul. }
    rewrite Hat.
    repeat split; try assumption; try lia; [now apply refines_poke|].
    rewrite skipn_poke_after.
    rewrite <- Hspn, Hcs.
    rewrite (skipn_peek_cons s1 Hn). unfold s1 at 2 3.
    rewrite peek_skipn, skipn_skipn.
    replace (S n + b)%nat with (S (b + n)) by lia.
    simpl c_str. rewrite E2.
    apply (@runs_more [] (firstn n s1)); try assumption. constructor.
Qed.

(* ================================================================== *)
(** ** The loop of [noosh_split_line] *)

Lemma log_all_app (a b : list call) (w : world) :
  log_all (a ++ b) w = log_all b (log_all a w).
Proof. unfold log_all. apply fold_left_app. Qed.

Lemma store_end {X} (a : list X) (x : X) :
  store a (Z.of_nat (length a)) x = a ++ [x].
Proof. unfold store. now rewrite Nat2Z.id, firstn_all. Qed.

Lemma log_all_stderr (cs : list call) (w : world) :
  w_stderr (log_all cs w) = w_stderr w.
Proof.
  revert w. induction cs as [|c cs IH]; intros w; simpl; [reflexivity|].
  unfold log_all in *. simpl. now rewrite IH.
Qed.

Lemma log_all_stdout (cs : list call) (w : world) :
  w_stdout (log_all cs w) = w_stdout w.
Proof.
  revert w. induction cs as [|c cs IH]; intros w; simpl; [reflexivity|].
  unfold log_all in *. simpl. now rewrite IH.
Qed.

Lemma log_all_calls (cs : list call) (w : world) :
  w_calls (log_all cs w) = w_calls w ++ cs.
Proof.
  revert w. induction cs as [|c cs IH]; intros w; simpl.
  - now rewrite app_nil_r.
  - unfold log_all in *. simpl. rewrite IH. simpl. now rewrite <- app_assoc.
Qed.

Lemma granted_app (H : host) (a b : list call) (w : world) :
  granted H w (a ++ b) <-> granted H w a /\ granted H (log_all a w) b.
Proof.
  revert w. induction a as [|c a IH]; intros w; simpl.
  - unfold log_all. simpl. tauto.
  - rewrite IH. unfold log_all. simpl. tauto.
Qed.

Lemma store_token (ptrs : list nat) (b : nat) :
  store (map Some ptrs) (Z.of_nat (length ptrs)) (Some b)
  = map Some (ptrs ++ [b]).
Proof.
  rewrite <- (length_map Some ptrs) at 1. rewrite store_end.
  now rewrite map_app.
Qed.

Section SplitLoop.

Variable H : host.

Lemma split_loop_spec (n : nat) :
  forall (m : memory) (p : nat) (w : world) (ptrs0 : list nat) (q : nat),
    (length m - p < n)%nat ->
    capacity q - NOOSH_TOK_BUFSIZE <= Z.of_nat (length ptrs0) < capacity q ->
    match
      (let '(tok, m1, p1) := strtok None NOOSH_TOK_DELIM m p in
       split_loop H n tok
         (mkSplit m1 p1 (capacity q) (Z.of_nat (length ptrs0))
                  (map Some ptrs0))) w
    with
    | Ret st w' =>
        exists ptrs q',
          s_tokens st = map Some (ptrs0 ++ ptrs) /\
          s_position st = Z.of_nat (length (ptrs0 ++ ptrs)) /\
          refines m (s_line st) /\
          token_strings (s_line st) ptrs = maximal_runs (c_str (skipn p m)) /\
          (q <= q')%nat /\
          capacity q' - NOOSH_TOK_BUFSIZE <= s_position st < capacity q' /\
          w' = log_all (map (fun k => Realloc (capacity k * sizeof_char_ptr))
                            (seq (S q) (q' - q))) w /\
          granted H w (map (fun k => Realloc (capacity k * sizeof_char_ptr))
                           (seq (S q) (q' - q)))
    | Exited code w' =>
        code = EXIT_FAILURE /\
        w_stderr w' = w_stderr w ++ alloc_diag /\
        w_stdout w' = w_stdout w /\
        exists w0 size e, h_alloc H w0 size = Fail e
    | _ => False
    end.
Proof.
  induction n as [|n IH]; intros m p w ptrs0 q Hfuel Hcap; [lia|].
  pose proof (strtok_spec m p) as Hstep.
  destruct (strtok None NOOSH_TOK_DELIM m p) as [[tok m1] p1].
  destruct tok as [b|].
  - destruct Hstep as (Hlt & Hin & Href & Hne & Hclean & Hruns).
    cbn [split_loop s_tokens s_position s_bufsize s_line s_save].
    rewrite store_token.
    assert (Hpos : Z.of_nat (length ptrs0) + 1 = Z.of_nat (length (ptrs0 ++ [b])))
      by (rewrite length_app; simpl; lia).
    rewrite Hpos.
    assert (Hfuel' : (length m1 - p1 < n)%nat)
      by (rewrite (refines_length Href); lia).
    assert (Hkey :
      forall (q1 : nat) (w1 : world),
        (q <= q1)%nat ->
        capacity q1 - NOOSH_TOK_BUFSIZE <= Z.of_nat (length (ptrs0 ++ [b]))
          < capacity q1 ->
        w1 = log_all (map (fun k => Realloc (capacity k * sizeof_char_ptr))
                          (seq (S q) (q1 - q))) w ->
        granted H w (map (fun k => Realloc (capacity k * sizeof_char_ptr))
                         (seq (S q) (q1 - q))) ->
        match
          (let '(token', line', save') := strtok None NOOSH_TOK_DELIM m1 p1 in
           split_loop H n token'
             (mkSplit line' save' (capacity q1)
                      (Z.of_nat (length (ptrs0 ++ [b])))
                      (map Some (ptrs0 ++ [b])))) w1
        with
        | Ret st w' =>
            exists ptrs q',
              s_tokens st = map Some (ptrs0 ++ ptrs) /\
              s_position st = Z.of_nat (length (ptrs0 ++ ptrs)) /\
              refines m (s_line st) /\
              token_strings (s_line st) ptrs
              = maximal_runs (c_str (skipn p m)) /\
              (q <= q')%nat /\
              capacity q' - NOOSH_TOK_BUFSIZE <= s_position st < capacity q' /\
              w' = log_all (map (fun k => Realloc (capacity k * sizeof_char_ptr))
                                (seq (S q) (q' - q))) w /\
              granted H w (map (fun k => Realloc (capacity k * sizeof_char_ptr))
                               (seq (S q) (q' - q)))
        | Exited code w' =>
            code = EXIT_FAILURE /\
            w_stderr w' = w_stderr w ++ alloc_diag /\
            w_stdout w' = w_stdout w /\
            exists w0 size e, h_alloc H w0 size = Fail e
        | _ => False
        end).
    { intros q1 w1 Hq1 Hcap1 Hw1 Hg1.
      specialize (IH m1 p1 w1 (ptrs0 ++ [b]) q1 Hfuel' Hcap1).
      destruct ((let '(token', line', save') := strtok None NOOSH_TOK_DELIM m1 p1 in
                 split_loop H n token'
                   (mkSplit line' save' (capacity q1)
                            (Z.of_nat (length (ptrs0 ++ [b])))
                            (map Some (ptrs0 ++ [b])))) w1)
        as [st w'|code w'|r w'|w'|w']; try contradiction.
      - destruct IH as (ptrs & q' & Htok & Hposn & Href' & Hstr & Hq' & Hcap'
                        & Hw' & Hg').
        exists (b :: ptrs), q'.
        rewrite <- app_assoc in Htok, Hposn. simpl in Htok, Hposn.
        assert (Hseq : seq (S q) (q' - q)
                       = seq (S q) (q1 - q) ++ seq (S q1) (q' - q1)).
        { replace (q' - q)%nat with ((q1 - q) + (q' - q1))%nat by lia.
          rewrite seq_app. do 2 f_equal. lia. }
        repeat split; try assumption; try lia.
        + now apply refines_trans with m1.
        + unfold token_strings in *. simpl. rewrite Hruns, Hstr. f_equal.
          unfold string_at. apply refines_c_str; [|exact Hclean].
          now apply refines_skipn.
        + rewrite Hw', Hw1, <- log_all_app, <- map_app. now rewrite Hseq.
        + rewrite Hseq, map_app. apply granted_app. split; [exact Hg1|].
          now rewrite <- Hw1.
      - destruct IH as (Hcode & Herr & Hout & Hfail).
        subst w1. rewrite log_all_stderr in Herr. rewrite log_all_stdout in Hout.
        repeat split; assumption. }
    destruct (Z.of_nat (length (ptrs0 ++ [b])) >=? capacity q) eqn:Hfull.
    + unfold bind at 1 2. unfold realloc.
      destruct (h_alloc H w ((capacity q + NOOSH_TOK_BUFSIZE) * sizeof_char_ptr))
        as [[]|e] eqn:Halloc;
        cbv beta iota delta [negb ret bind eprintf exit].
      * replace (capacity q + NOOSH_TOK_BUFSIZE) with (capacity (S q))
          by (unfold capacity; lia).
        rewrite <- Hpos in Hfull. rewrite Z.geb_le in Hfull.
        replace (capacity q + NOOSH_TOK_BUFSIZE) with (capacity (S q)) in Halloc
          by (unfold capacity; lia).
        apply Hkey; [lia| | |].
        -- unfold capacity, NOOSH_TOK_BUFSIZE in *. lia.
        -- replace (S q - q)%nat with 1%nat by lia. reflexivity.
        -- replace (S q - q)%nat with 1%nat by lia. simpl. auto.
      * cbn. repeat split; try reflexivity. eauto.
    + unfold bind at 1. unfold ret at 1.
      apply Hkey; [lia| | |].
      * assert (Hlt' : Z.of_nat (length (ptrs0 ++ [b])) < capacity q)
          by (destruct (Z.geb_spec (Z.of_nat (length (ptrs0 ++ [b]))) (capacity q));
              [discriminate|lia]).
        unfold capacity, NOOSH_TOK_BUFSIZE in *. lia.
      * rewrite Nat.sub_diag. reflexivity.
      * rewrite Nat.sub_diag. exact I.
  - destruct Hstep as [-> Hruns].
    cbn. exists [], q. rewrite app_nil_r, Nat.sub_diag.
    repeat split; try tauto; try lia; try exact I.
    + apply refines_refl.
    + now rewrite Hruns.
Qed.

End SplitLoop.

(** [noosh_split_line] on any buffer: it returns the array of the pointers
    to the maximal runs of the buffer's string, each ended by a NUL written
    over the delimiter behind it, after one [malloc] and one [realloc] per
    64 tokens; or an allocation is refused and the process exits. *)
Lemma split_line_spec (H : host) (m : memory) (w : world) :
  match noosh_split_line H m w with
  | Ret (args, m') w' =>
      exists ptrs q,
        args = array_of ptrs /\
        refines m m' /\
        token_strings m' ptrs = maximal_runs (c_str m) /\
        Z.of_nat q = Z.of_nat (length ptrs) / NOOSH_TOK_BUFSIZE /\
        w' = log_all (split_calls q) w /\
        granted H w (split_calls q)
  | Exited code w' =>
      code = EXIT_FAILURE /\
      w_stderr w' = w_stderr w ++ alloc_diag /\
      w_stdout w' = w_stdout w /\
      exists w0 size e, h_alloc H w0 size = Fail e
  | _ => False
  end.
Proof.
  unfold noosh_split_line. unfold bind at 1. unfold malloc.
  destruct (h_alloc H w (NOOSH_TOK_BUFSIZE * sizeof_char_ptr)) as [[]|e] eqn:Ha;
    cbv beta iota delta [negb].
  - change (strtok (Some O) NOOSH_TOK_DELIM m O)
      with (strtok None NOOSH_TOK_DELIM m O).
    pose proof (@split_loop_spec H (S (length m)) m O
                  (log (Malloc (NOOSH_TOK_BUFSIZE * sizeof_char_ptr)) w)
                  [] O) as Hloop.
    assert (Hfuel : (length m - 0 < S (length m))%nat) by lia.
    assert (Hcap0 : capacity 0 - NOOSH_TOK_BUFSIZE
                    <= Z.of_nat (length (@nil nat)) < capacity 0)
      by (unfold capacity, NOOSH_TOK_BUFSIZE; simpl; lia).
    specialize (Hloop Hfuel Hcap0). clear Hfuel Hcap0.
    destruct (strtok None NOOSH_TOK_DELIM m O) as [[tok m1] p1].
    unfold bind.
    match goal with
    | |- context [split_loop H ?n ?t ?s ?w0] =>
        match type of Hloop with
        | context [split_loop H n t ?s' w0] => change s with s'
        end
    end.
    destruct (split_loop H (S (length m)) tok _ _)
      as [st w'|code w'|r w'|w'|w']; try contradiction.
    + destruct Hloop as (ptrs & q & Htok & Hpos & Href & Hstr & _ & Hcap & Hw
                         & Hg).
      simpl in Htok, Hpos, Hstr. unfold ret.
      exists ptrs, q. rewrite Htok, Hpos.
      repeat split; try assumption.
      * unfold array_of. rewrite <- (length_map Some ptrs). apply store_end.
      * rewrite Hpos in Hcap. unfold capacity, NOOSH_TOK_BUFSIZE in *.
        apply Z.div_unique with (r := Z.of_nat (length ptrs) - 64 * Z.of_nat q);
          lia.
      * rewrite Hw, Nat.sub_0_r. reflexivity.
      * rewrite Nat.sub_0_r in Hg. exact Hg.
    + destruct Hloop as (Hcode & Herr & Hout & Hfail).
      repeat split; assumption.
  - cbn. repeat split; try reflexivity. eauto.
Qed.

(** On a host that grants every allocation the tokenizer returns. *)
Lemma split_line_generous (H : host) (m : memory) (w : world) :
  generous H ->
  exists ptrs m',
    noosh_split_line H m w
    = Ret (array_of ptrs, m')
          (log_all (split_calls (length ptrs / 64)) w) /\
    refines m m' /\
    token_strings m' ptrs = maximal_runs (c_str m).
Proof.
  intros Hgen. pose proof (split_line_spec H m w) as Hspec.
  destruct (noosh_split_line H m w) as [[args m'] w'|code w'|r w'|w'|w'];
    try contradiction.
  - destruct Hspec as (ptrs & q & -> & Href & Hstr & Hq & -> & _).
    exists ptrs, m'. repeat split; try assumption.
    do 3 f_equal. apply Nat2Z.inj. rewrite Hq, Nat2Z.inj_div. reflexivity.
  - destruct Hspec as (_ & _ & _ & w0 & size & e & Hfail).
    rewrite Hgen in Hfail. discriminate Hfail.
Qed.

(* ================================================================== *)
(** ** The tokenizer *)

Lemma c_str_terminated (line : str) : c_str (line ++ [NUL]) = c_str line.
Proof.
  induction line as [|c line IH]; simpl; [reflexivity|].
  destruct (is_nul c); [reflexivity|now rewrite IH].
Qed.

Lemma generous_calm_host : generous calm_host.
Proof. intros w size. reflexivity. Qed.

Lemma token_strings_no_nul (m : memory) (ptrs : list nat) :
  Forall (Forall (fun c => is_nul c = false)) (token_strings m ptrs).
Proof.
  unfold token_strings. apply Forall_map, Forall_forall.
  intros p _. apply c_str_no_nul.
Qed.

Lemma join_no_nul (ts : list str) :
  Forall (Forall (fun c => is_nul c = false)) ts ->
  Forall (fun c => is_nul c = false) (join ts).
Proof.
  induction 1 as [|t ts Ht Hts IH]; [constructor|].
  destruct ts as [|t' ts']; [exact Ht|].
  change (join (t :: t' :: ts')) with (t ++ " "%char :: join (t' :: ts')).
  apply Forall_app. split; [exact Ht|]. constructor; [reflexivity|exact IH].
Qed.


(** C7, as the code has it: the tokenizer splits on the five characters
    space, tab, carriage return, newline and bell, and on a host that
    grants its allocations the strings of the tokens it returns for a line
    are the maximal runs of non-delimiter characters of the line up to its
    first NUL byte, in order: they are the result of [maximal_runs] on
    that part and they decompose it as [Runs] says, so that no token is
    empty.  For a line without a NUL byte that part is the line. *)
Theorem split_line_maximal_runs (H : host) (line : str) (w : world) :
  generous H ->
  (forall c, is_delim c = true <->
             c = " "%char \/ c = "009"%char \/ c = "013"%char
             \/ c = "010"%char \/ c = "007"%char) /\
  exists ptrs m' w',
    noosh_split_line H (line ++ [NUL]) w = Ret (array_of ptrs, m') w' /\
    token_strings m' ptrs = maximal_runs (c_str line) /\
    Runs (c_str line) (token_strings m' ptrs) /\
    (~ In NUL line ->
     token_strings m' ptrs = maximal_runs line /\
     Runs line (token_strings m' ptrs)).
Proof.
  intros Hgen. split; [exact is_delim_iff|].
  destruct (split_line_generous (line ++ [NUL]) w Hgen)
    as (ptrs & m' & Hrun & _ & Hstr).
  rewrite c_str_terminated in Hstr.
  exists ptrs, m'. eexists. split; [exact Hrun|]. split; [exact Hstr|].
  split; [rewrite Hstr; apply Runs_maximal_runs|].
  intros Hclean.
  assert (Hline : c_str line = line).
  { apply c_str_clean, Forall_forall. intros c Hc.
    destruct (is_nul c) eqn:E; [|reflexivity].
    apply is_nul_true in E. subst c. contradiction. }
  rewrite Hline in Hstr. split; [exact Hstr|].
  rewrite Hstr. apply Runs_maximal_runs.
Qed.

Lemma split_line_maximal_runs_witness :
  (forall c, is_delim c = true <->
             c = " "%char \/ c = "009"%char \/ c = "013"%char
             \/ c = "010"%char \/ c = "007"%char) /\
  exists ptrs m' w',
    noosh_split_line calm_host (lit "  ls   -l /tmp " ++ [NUL]) (boot [])
    = Ret (array_of ptrs, m') w' /\
    token_strings m' ptrs = maximal_runs (c_str (lit "  ls   -l /tmp ")) /\
    Runs (c_str (lit "  ls   -l /tmp ")) (token_strings m' ptrs) /\
    (~ In NUL (lit "  ls   -l /tmp ") ->
     token_strings m' ptrs = maximal_runs (lit "  ls   -l /tmp ") /\
     Runs (lit "  ls   -l /tmp ") (token_strings m' ptrs)).
Proof.
  apply (@split_line_maximal_runs calm_host (lit "  ls   -l /tmp ") (boot [])).
  intros w size. reflexivity.
Defined.

(** C7, as the claim states it, fails for a line with a NUL byte.  The
    reader stores the byte like any other and hands the line on; the
    maximal runs of non-delimiter characters of the line [nul_line] are
    [a], NUL, [b] and [c], and the tokenizer returns the one token [a]. *)
Lemma tokens_end_at_nul_byte :
  exists w1 ptrs m' w2,
    noosh_read_line calm_host (boot (nul_line ++ LF))
    = Ret (nul_line ++ [NUL]) w1 /\
    noosh_split_line calm_host (nul_line ++ [NUL]) w1
    = Ret (array_of ptrs, m') w2 /\
    token_strings m' ptrs = [lit "a"] /\
    maximal_runs nul_line = [lit "a" ++ NUL :: lit "b"; lit "c"] /\
    token_strings m' ptrs <> maximal_runs nul_line.
Proof.
  exists (world_of (noosh_read_line calm_host (boot (nul_line ++ LF)))
                   (boot [])).
  exists [0%nat], (nul_line ++ [NUL]).
  exists (world_of
            (noosh_split_line calm_host (nul_line ++ [NUL])
               (world_of (noosh_read_line calm_host (boot (nul_line ++ LF)))
                         (boot [])))
            (boot [])).
  split; [vm_compute; reflexivity|].
  split; [vm_compute; reflexivity|].
  split; [reflexivity|]. split; [reflexivity|].
  discriminate.
Qed.



(** C6: a line made of delimiters only, or of no character at all, gives
    the array whose first slot is [NULL], and [noosh_execute] on that
    array returns 1 (continue) in the world it was called in: no builtin
    has run and nothing was launched. *)
Theorem blank_line_no_dispatch (H : host) (line : str) (w : world) :
  generous H ->
  all_delim line ->
  exists m' w',
    noosh_split_line H (line ++ [NUL]) w = Ret (array_of [], m') w' /\
    slot (array_of []) 0 = None /\
    forall w2, noosh_execute H m' (array_of []) w2 = Ret 1 w2.
Proof.
  intros Hgen Hblank.
  destruct (split_line_generous (line ++ [NUL]) w Hgen)
    as (ptrs & m' & Hrun & _ & Hstr).
  rewrite c_str_terminated in Hstr.
  rewrite (c_str_clean (no_delim_no_nul_of_delim Hblank)) in Hstr.
  rewrite (runs_all_delim Hblank) in Hstr.
  apply map_eq_nil in Hstr. subst ptrs.
  exists m'. eexists. split; [exact Hrun|]. split; reflexivity.
Qed.

Lemma blank_line_no_dispatch_witness :
  exists m' w',
    noosh_split_line calm_host ([" "%char; "009"%char; " "%char] ++ [NUL])
                     (boot [])
    = Ret (array_of [], m') w' /\
    slot (array_of []) 0 = None /\
    forall w2, noosh_execute calm_host m' (array_of []) w2 = Ret 1 w2.
Proof.
  apply (@blank_line_no_dispatch calm_host [" "%char; "009"%char; " "%char]
                                 (boot [])).
  - intros w size. reflexivity.
  - repeat constructor.
Defined.

(** C9: on a host that grants its allocations, joining the tokens of a
    line with single spaces and tokenizing the joined string gives the
    same token strings again. *)
Theorem split_line_idempotent (H : host) (line : str) (w w2 : world) :
  generous H ->
  exists ptrs m1 w1 ptrs2 m2 w3,
    noosh_split_line H (line ++ [NUL]) w = Ret (array_of ptrs, m1) w1 /\
    noosh_split_line H (join (token_strings m1 ptrs) ++ [NUL]) w2
    = Ret (array_of ptrs2, m2) w3 /\
    token_strings m2 ptrs2 = token_strings m1 ptrs.
Proof.
  intros Hgen.
  destruct (split_line_generous (line ++ [NUL]) w Hgen)
    as (ptrs & m1 & Hrun & _ & Hstr).
  destruct (split_line_generous (join (token_strings m1 ptrs) ++ [NUL]) w2 Hgen)
    as (ptrs2 & m2 & Hrun2 & _ & Hstr2).
  exists ptrs, m1. eexists. exists ptrs2, m2. eexists.
  split; [exact Hrun|]. split; [exact Hrun2|].
  rewrite Hstr2, c_str_terminated.
  rewrite (c_str_clean (join_no_nul (token_strings_no_nul m1 ptrs))).
  apply Runs_unique, Runs_join.
  rewrite Hstr. apply Runs_tokens with (s := c_str (line ++ [NUL])).
  apply Runs_maximal_runs.
Qed.

Lemma split_line_idempotent_witness :
  exists ptrs m1 w1 ptrs2 m2 w3,
    noosh_split_line calm_host (lit " echo  a   b " ++ [NUL]) (boot [])
    = Ret (array_of ptrs, m1) w1 /\
    noosh_split_line calm_host (join (token_strings m1 ptrs) ++ [NUL]) (boot [])
    = Ret (array_of ptrs2, m2) w3 /\
    token_strings m2 ptrs2 = token_strings m1 ptrs.
Proof.
  apply (@split_line_idempotent calm_host (lit " echo  a   b ") (boot [])
                                (boot [])).
  intros w size. reflexivity.
Defined.

(** A string has at most one run for every two of its characters, and the
    capacity the tokenizer ends with exceeds the number of tokens by at
    most 64: for a line of fewer than 2^31 characters, which is what the
    [int] position of [noosh_read_line] can count, [position] and
    [bufsize] stay within [int]. *)
Lemma Runs_count (s : str) (ts : list str) :
  Runs s ts -> (2 * length ts <= length s + 1)%nat.
Proof.
  induction 1 as [d Hd|d t Hd Hne Ht|d t c s ts Hd Hne Ht Hc _ IH]; simpl.
  - lia.
  - destruct t; [contradiction|]. rewrite length_app. simpl. lia.
  - destruct t; [contradiction|]. rewrite length_app. simpl.
    rewrite length_app. simpl. lia.
Qed.

Lemma c_str_length (s : list ascii) : (length (c_str s) <= length s)%nat.
Proof.
  induction s as [|c s IH]; simpl; [lia|].
  destruct (is_nul c); simpl; lia.
Qed.

Lemma capacity_in_int_range (line : str) :
  let n := length (maximal_runs (c_str line)) in
  Z.of_nat (length line) <= INT_MAX ->
  Z.of_nat n < capacity (n / 64) <= Z.of_nat n + NOOSH_TOK_BUFSIZE /\
  capacity (n / 64) <= INT_MAX.
Proof.
  intros n Hlen.
  pose proof (Runs_count (Runs_maximal_runs (c_str line))) as Hcount.
  pose proof (c_str_length line) as Hstr. fold n in Hcount.
  unfold capacity, NOOSH_TOK_BUFSIZE, INT_MAX in *.
  rewrite Nat2Z.inj_div. change (Z.of_nat 64) with 64.
  pose proof (Z.div_mod (Z.of_nat n) 64 ltac:(lia)) as Hdiv.
  pose proof (Z.mod_pos_bound (Z.of_nat n) 64 ltac:(lia)) as Hmod.
  lia.
Qed.

(** C8, as the code has it: the token array starts with 64 slots and every
    growth adds 64 slots, so that the capacity after [k] growths is
    [64 + 64 * k].  On a host that grants its allocations a line of [n]
    tokens is tokenized with one [malloc] of 64 slots and [n / 64] calls of
    [realloc], the [k]-th for [capacity k] slots; and when the host refuses
    one of these calls the process exits with [EXIT_FAILURE] after the
    diagnostic on standard error. *)
Theorem split_line_capacity (H : host) (line : str) (w : world) :
  let n := length (maximal_runs (c_str line)) in
  capacity 0 = 64 /\
  (forall k, capacity (S k) = capacity k + 64) /\
  length (split_calls (n / 64)) = S (n / 64) /\
  (generous H ->
   exists ptrs m',
     length ptrs = n /\
     noosh_split_line H (line ++ [NUL]) w
     = Ret (array_of ptrs, m') (log_all (split_calls (n / 64)) w)) /\
  (~ granted H w (split_calls (n / 64)) ->
   exists w',
     noosh_split_line H (line ++ [NUL]) w = Exited EXIT_FAILURE w' /\
     w_stderr w' = w_stderr w ++ alloc_diag).
Proof.
  intros n. split; [reflexivity|]. split; [|split; [|split]].
  - intros k. unfold capacity, NOOSH_TOK_BUFSIZE. lia.
  - unfold split_calls. simpl. now rewrite length_map, length_seq.
  - intros Hgen.
    destruct (split_line_generous (line ++ [NUL]) w Hgen)
      as (ptrs & m' & Hrun & _ & Hstr).
    rewrite c_str_terminated in Hstr.
    assert (Hlen : length ptrs = n).
    { unfold n. rewrite <- Hstr. unfold token_strings. now rewrite length_map. }
    exists ptrs, m'. split; [exact Hlen|]. now rewrite <- Hlen.
  - intros Hrefused.
    pose proof (split_line_spec H (line ++ [NUL]) w) as Hspec.
    destruct (noosh_split_line H (line ++ [NUL]) w)
      as [[args m'] w'|code w'|r w'|w'|w']; try contradiction.
    + exfalso. apply Hrefused.
      destruct Hspec as (ptrs & q & _ & _ & Hstr & Hq & _ & Hg).
      rewrite c_str_terminated in Hstr.
      assert (Hlen : length ptrs = n).
      { unfold n. rewrite <- Hstr. unfold token_strings. now rewrite length_map. }
      replace (n / 64)%nat with q; [exact Hg|].
      apply Nat2Z.inj. rewrite Hq, Nat2Z.inj_div, Hlen. reflexivity.
    + destruct Hspec as (-> & Herr & _). exists w'. split; [reflexivity|exact Herr].
Qed.

Lemma split_line_capacity_witness :
  (exists ptrs m',
     length ptrs = 128%nat /\
     noosh_split_line calm_host (line128 ++ [NUL]) (boot [])
     = Ret (array_of ptrs, m') (log_all (split_calls 2) (boot []))) /\
  (exists w',
     noosh_split_line tight_host (line128 ++ [NUL]) (boot [])
     = Exited EXIT_FAILURE w' /\
     w_stderr w' = w_stderr (boot []) ++ alloc_diag).
Proof.
  pose proof (@split_line_capacity calm_host line128 (boot [])) as Hcalm.
  pose proof (@split_line_capacity tight_host line128 (boot [])) as Htight.
  cbv zeta in Hcalm, Htight.
  destruct Hcalm as (_ & _ & _ & Hok & _).
  destruct Htight as (_ & _ & _ & _ & Hfail).
  split.
  - apply Hok. intros w size. reflexivity.
  - apply Hfail. intros (_ & _ & Hthird & _).
    vm_compute in Hthird. discriminate Hthird.
Defined.

(** C8, as the claim states it, fails: the capacities the tokenizer asks
    for on a line of 128 tokens are 64, 128 and 192 slots, which are not in
    one ratio. *)
Lemma capacity_growth_not_geometric :
  exists r w',
    noosh_split_line calm_host (line128 ++ [NUL]) (boot []) = Ret r w' /\
    capacities_of (w_calls w') = [64; 128; 192] /\
    ~ geometric (capacities_of (w_calls w')).
Proof.
  destruct (noosh_split_line calm_host (line128 ++ [NUL]) (boot []))
    as [r w'|code w'|r w'|w'|w'] eqn:E; vm_compute in E; try discriminate E.
  exists r, w'. split; [reflexivity|].
  injection E as _ <-.
  split; [reflexivity|].
  intros Hgeo. specialize (Hgeo O 64 128 192 eq_refl eq_refl eq_refl).
  discriminate Hgeo.
Qed.

(* ================================================================== *)
(** ** Dispatch *)

Lemma strcmp_neq (a b : str) :
  Forall (fun c => is_nul c = false) a ->
  Forall (fun c => is_nul c = false) b ->
  a <> b -> (strcmp a b =? 0) = false.
Proof.
  intros Ha Hb Hne. apply Z.eqb_neq. intros E. apply Hne.
  now apply strcmp_eq.
Qed.

Lemma argv_of_array (m : memory) (ptrs : list nat) :
  argv_of m (array_of ptrs) = token_strings m ptrs.
Proof.
  unfold array_of, token_strings.
  induction ptrs as [|p ptrs IH]; simpl; [reflexivity|]. now rewrite IH.
Qed.

(** The child ends: one of its reports is an exit or a death by signal. *)
Lemma wait_loop_ends (H : host) (pid : Z) (rs : list wstatus) :
  delivers H pid ->
  forall (status : wstatus) (w : world),
    w_child w = rs ->
    child_ends rs = true ->
    exists k w',
      wait_loop H (S (length rs)) pid status w = Ret tt w' /\
      w_calls w' = w_calls w ++ repeat (Waitpid pid) (S k) /\
      w_stdout w' = w_stdout w /\ w_stderr w' = w_stderr w /\
      w_cwd w' = w_cwd w /\ w_stdin w' = w_stdin w.
Proof.
  intros Hdel.
  induction rs as [|s rs IH]; intros status w Hw Hends; [discriminate Hends|].
  change (S (length (s :: rs))) with (S (S (length rs))).
  cbn [wait_loop]. unfold bind at 1. unfold waitpid at 1.
  rewrite Hw, (Hdel w).
  simpl in Hends.
  destruct s as [code|sig|sig]; cbn [WIFEXITED WIFSIGNALED negb andb].
  - exists O. eexists. split; [reflexivity|]. now cbn.
  - exists O. eexists. split; [reflexivity|]. now cbn.
  - cbn in Hends.
    destruct (IH (WStopped sig) (set_child rs (log (Waitpid pid) w))
                 eq_refl Hends)
      as (k & w' & Hrun & Hcalls & Hout & Herr & Hcwd & Hin).
    exists (S k), w'. split; [exact Hrun|].
    cbn in Hcalls, Hout, Herr, Hcwd, Hin.
    rewrite Hcalls, <- app_assoc. now cbn.
Qed.

Section Dispatch.

Variable H : host.

(** The scan of the builtin table, one comparison after the other. *)
Lemma execute_scan (m : memory) (args : array) (p : nat) (w : world) :
  slot args 0 = Some p ->
  noosh_execute H m args w
  = if strcmp (string_at m p) (lit "cd") =? 0 then noosh_cd H m args w
    else if strcmp (string_at m p) (lit "pwd") =? 0 then noosh_pwd H m args w
    else if strcmp (string_at m p) (lit "help") =? 0 then noosh_help m args w
    else if strcmp (string_at m p) (lit "exit") =? 0 then noosh_exit m args w
    else noosh_launch H m args w.
Proof.
  intros Hslot. unfold noosh_execute. rewrite Hslot.
  change (Z.to_nat noosh_num_builtins) with 4%nat.
  cbn [for_loop].
  change (0 + 1) with 1. change (1 + 1) with 2. change (2 + 1) with 3.
  change (Z.to_nat 0) with 0%nat. change (Z.to_nat 1) with 1%nat.
  change (Z.to_nat 2) with 2%nat. change (Z.to_nat 3) with 3%nat.
  change (0 <? noosh_num_builtins) with true.
  change (1 <? noosh_num_builtins) with true.
  change (2 <? noosh_num_builtins) with true.
  change (3 <? noosh_num_builtins) with true.
  cbn [nth builtin_str builtin_func].
  unfold bind, ret.
  destruct (strcmp (string_at m p) (lit "cd") =? 0);
    [destruct (noosh_cd H m args w); reflexivity|].
  destruct (strcmp (string_at m p) (lit "pwd") =? 0);
    [destruct (noosh_pwd H m args w); reflexivity|].
  destruct (strcmp (string_at m p) (lit "help") =? 0);
    [destruct (noosh_help m args w); reflexivity|].
  destruct (strcmp (string_at m p) (lit "exit") =? 0);
    [destruct (noosh_exit m args w); reflexivity|].
  reflexivity.
Qed.

Lemma execute_external (m : memory) (args : array) (p : nat) (w : world) :
  slot args 0 = Some p ->
  ~ In (string_at m p) builtin_str ->
  noosh_execute H m args w = noosh_launch H m args w.
Proof.
  intros Hslot Hnot. rewrite (execute_scan m args w Hslot).
  assert (Hclean : Forall (fun c => is_nul c = false) (string_at m p))
    by apply c_str_no_nul.
  rewrite !strcmp_neq; try assumption; try (repeat constructor);
    intros E; apply Hnot; rewrite E; simpl; tauto.
Qed.

(** X20: when the first token of a non-empty token sequence is not the
    name of a builtin, [noosh_execute] is [noosh_launch] on that array; the
    child it forks calls [execvp] with the first token as the file and the
    strings of all the tokens, in order, as the argument vector; no
    result other than 1 (continue) is ever returned; and where [waitpid]
    is delivered every state change of the child, 1 is returned whether
    the fork is refused, the program cannot be started, or the program
    ends with any status or by a signal (a program that is started must
    end for the wait to end). *)
Theorem execute_launches_external
        (m : memory) (p : nat) (ptrs : list nat) (w : world) :
  ~ In (string_at m p) builtin_str ->
  (forall reports,
      h_execvp H (log Fork w) (string_at m p) (token_strings m (p :: ptrs))
      = Done reports ->
      child_ends reports = true) ->
  (forall pid, h_fork H w = Done pid -> delivers H (Z.pos pid)) ->
  noosh_execute H m (array_of (p :: ptrs)) w
  = noosh_launch H m (array_of (p :: ptrs)) w /\
  (forall v w', noosh_execute H m (array_of (p :: ptrs)) w = Ret v w' ->
                v = 1) /\
  exists w',
    noosh_execute H m (array_of (p :: ptrs)) w = Ret 1 w' /\
    match h_fork H w with
    | Fail e =>
        w_calls w' = w_calls w ++ [Fork] /\
        w_stderr w' = w_stderr w ++ lit "noosh: " ++ h_strerror H e ++ LF
    | Done pid =>
        exists k,
          w_calls w'
          = w_calls w
            ++ Fork
            :: Execvp (string_at m p) (token_strings m (p :: ptrs))
            :: repeat (Waitpid (Z.pos pid)) (S k)
    end.
Proof.
  intros Hnot Hends Hdel.
  assert (Hslot : slot (array_of (p :: ptrs)) 0 = Some p) by reflexivity.
  split; [now apply execute_external with p|].
  rewrite (execute_external m _ w Hslot Hnot).
  split.
  { intros v w'. unfold noosh_launch. unfold bind at 1.
    destruct (fork _ _ _ w); unfold ret; intros E; inversion E. reflexivity. }
  unfold noosh_launch. rewrite Hslot, argv_of_array.
  unfold bind, fork, execvp.
  destruct (h_fork H w) as [pid|e] eqn:Hfork.
  - specialize (Hdel pid eq_refl).
    destruct (h_execvp H (log Fork w) (string_at m p)
                       (token_strings m (p :: ptrs))) as [reports|e] eqn:Hexec.
    + change (Z.pos pid <? 0) with false. cbv iota beta.
      specialize (Hends reports eq_refl).
      match goal with
      | |- context [wait_loop H ?n ?q ?st ?w0] =>
          destruct (@wait_loop_ends H q reports Hdel st w0 eq_refl Hends)
            as (k & w' & Hrun & Hcalls & _)
      end.
      cbn [w_child set_errno set_child] in *. rewrite Hrun.
      exists w'. split; [reflexivity|]. exists k.
      rewrite Hcalls. cbn. rewrite <- !app_assoc. reflexivity.
    + change (-1 =? -1) with true.
      cbv beta iota delta [perror exit].
      change (Z.pos pid <? 0) with false. cbv iota beta.
      match goal with
      | |- context [wait_loop H ?n ?q ?st ?w0] =>
          destruct (@wait_loop_ends H q [WExited EXIT_FAILURE] Hdel st w0
                      eq_refl eq_refl)
            as (k & w' & Hrun & Hcalls & _)
      end.
      cbn [w_child set_errno set_child length] in *. rewrite Hrun.
      exists w'. split; [reflexivity|]. exists k.
      rewrite Hcalls. cbn. rewrite <- !app_assoc. reflexivity.
  - change (-1 <? 0) with true. cbn. eexists. split; [reflexivity|].
    split; reflexivity.
Qed.

Lemma execute_builtin (m : memory) (args : array) (p : nat) (w : world) :
  slot args 0 = Some p ->
  (string_at m p = lit "cd" ->
   noosh_execute H m args w = noosh_cd H m args w) /\
  (string_at m p = lit "pwd" ->
   noosh_execute H m args w = noosh_pwd H m args w) /\
  (string_at m p = lit "help" ->
   noosh_execute H m args w = noosh_help m args w) /\
  (string_at m p = lit "exit" ->
   noosh_execute H m args w = noosh_exit m args w).
Proof.
  intros Hslot. rewrite (execute_scan m args w Hslot).
  repeat split; intros ->; reflexivity.
Qed.

Lemma cd_returns (m : memory) (args : array) (w : world) :
  exists w', noosh_cd H m args w = Ret 1 w'.
Proof.
  unfold noosh_cd, bind, chdir, eprintf, perror, ret.
  destruct (slot args 1) as [p|]; [|eexists; reflexivity].
  destruct (h_chdir H w (string_at m p)); cbn; eexists; reflexivity.
Qed.

Lemma help_returns (m : memory) (args : array) (w : world) :
  exists w', noosh_help m args w = Ret 1 w'.
Proof. eexists. reflexivity. Qed.

Lemma pwd_outcomes (m : memory) (args : array) (w : world) :
  (exists w', noosh_pwd H m args w = Ret 1 w') \/
  (exists w', noosh_pwd H m args w = Exited EXIT_FAILURE w').
Proof.
  unfold noosh_pwd, bind, malloc, getcwd, perror, printf, exit, ret.
  destruct (h_alloc H w (1 * PATH_MAX)) as [[]|e]; cbn;
    [|right; eexists; reflexivity].
  destruct (h_getcwd H _ PATH_MAX) as [[]|e]; cbn;
    [left|right]; eexists; reflexivity.
Qed.


(** C4: [pwd], in [src/main.c] and in [src/noosh.c] alike, once its buffer
    is allocated: when the working directory resolves, it is written to
    standard output followed by a newline and the builtin returns 1
    (continue); when it does not, the error is reported on standard error
    and the whole process exits with [EXIT_FAILURE], which is not 0. *)
Theorem pwd_prints_or_exits (m : memory) (args : array) (w : world) :
  h_alloc H w (1 * PATH_MAX) = Done tt ->
  (h_getcwd H (log (Malloc (1 * PATH_MAX)) w) PATH_MAX = Done tt ->
   exists w',
     noosh_pwd H m args w = Ret 1 w' /\
     NooshC.noosh_pwd H m args w = Ret 1 w' /\
     w_stdout w' = w_stdout w ++ w_cwd w ++ LF /\
     w_stderr w' = w_stderr w) /\
  (forall e,
      h_getcwd H (log (Malloc (1 * PATH_MAX)) w) PATH_MAX = Fail e ->
      exists w',
        noosh_pwd H m args w = Exited EXIT_FAILURE w' /\
        NooshC.noosh_pwd H m args w = Exited EXIT_FAILURE w' /\
        EXIT_FAILURE <> 0 /\
        w_stderr w' = w_stderr w ++ lit "noosh: " ++ h_strerror H e ++ LF /\
        w_stdout w' = w_stdout w).
Proof.
  intros Halloc.
  unfold noosh_pwd, NooshC.noosh_pwd, NooshC.get_cwd.
  unfold bind, malloc, getcwd, perror, printf, exit, ret.
  rewrite Halloc. cbv beta iota delta [negb].
  split.
  - intros Hcwd. rewrite Hcwd. eexists. repeat split.
  - intros e Hcwd. rewrite Hcwd. eexists. repeat split. discriminate.
Qed.

(** C5: [cd] without a second token writes its usage diagnostic to
    standard error, calls nothing (no [chdir]), leaves the working
    directory as it was and returns 1 (continue); [cd] with a path that
    [chdir] refuses reports the error of [chdir] on standard error, leaves
    the working directory as it was and returns 1.  [noosh_execute] runs
    this builtin when the first token is [cd]. *)
Theorem cd_reports_and_continues (m : memory) (args : array) (w : world) :
  (forall p0, slot args 0 = Some p0 -> string_at m p0 = lit "cd" ->
              noosh_execute H m args w = noosh_cd H m args w) /\
  (slot args 1 = None ->
   exists w',
     noosh_cd H m args w = Ret 1 w' /\
     w_stderr w' = w_stderr w ++ cd_usage /\
     w_stdout w' = w_stdout w /\
     w_cwd w' = w_cwd w /\
     w_calls w' = w_calls w) /\
  (forall p e,
      slot args 1 = Some p ->
      h_chdir H w (string_at m p) = Fail e ->
      exists w',
        noosh_cd H m args w = Ret 1 w' /\
        w_stderr w' = w_stderr w ++ lit "noosh: " ++ h_strerror H e ++ LF /\
        w_cwd w' = w_cwd w /\
        w_calls w' = w_calls w ++ [Chdir (string_at m p)]).
Proof.
  split; [|split].
  - intros p0 Hslot Hname.
    now apply (proj1 (execute_builtin m args w Hslot)).
  - intros Hslot. unfold noosh_cd. rewrite Hslot.
    eexists. split; [reflexivity|]. repeat split.
  - intros p e Hslot Hfail. unfold noosh_cd. rewrite Hslot.
    unfold bind, chdir. rewrite Hfail. cbn.
    eexists. split; [reflexivity|]. repeat split.
Qed.

End Dispatch.

(* ================================================================== *)
(** ** The loop at the end of the input *)

Section EndOfInput.

Variable H : host.
Hypothesis Hgen : generous H.

(** The loop of [noosh_read_line] appends the rest of the line to the
    buffer and ends it with NUL; nothing but the input and the log of
    calls changes. *)
Lemma read_loop_spec (input : list ascii) :
  forall (n : nat) (bufsize : Z) (buffer : memory) (w : world),
    w_stdin w = input ->
    (length input < n)%nat ->
    exists w',
      read_loop H n bufsize (Z.of_nat (length buffer)) buffer w
      = Ret (buffer ++ line_of input ++ [NUL]) w' /\
      w_stdin w' = after_line input /\
      w_stdout w' = w_stdout w /\ w_stderr w' = w_stderr w /\
      w_cwd w' = w_cwd w.
Proof.
  induction input as [|c rest IH]; intros n bufsize buffer w Hin Hn;
    (destruct n as [|n]; [simpl in Hn; lia|]);
    cbn [read_loop]; unfold bind at 1; unfold getchar; rewrite Hin.
  - exists w. unfold ret. rewrite store_end. now rewrite Hin.
  - cbn [line_of after_line].
    destruct (Ascii.eqb c "010"%char).
    + eexists. unfold ret. rewrite store_end. split; [reflexivity|].
      now cbn.
    + rewrite store_end.
      replace (Z.of_nat (length buffer) + 1)
        with (Z.of_nat (length (buffer ++ [c])))
        by (rewrite length_app; simpl; lia).
      assert (Hn' : (length rest < n)%nat) by (simpl in Hn; lia).
      destruct (Z.of_nat (length (buffer ++ [c])) >=? bufsize).
      * unfold bind at 1. unfold realloc. rewrite Hgen.
        cbv beta iota delta [negb].
        destruct (IH n (bufsize + NOOSH_RL_BUFSIZE) (buffer ++ [c])
                     (log (Realloc (bufsize + NOOSH_RL_BUFSIZE))
                          (set_stdin rest w)) eq_refl Hn')
          as (w' & Hrun & Hrest).
        exists w'. rewrite Hrun, <- app_assoc. split; [reflexivity|exact Hrest].
      * destruct (IH n bufsize (buffer ++ [c]) (set_stdin rest w) eq_refl Hn')
          as (w' & Hrun & Hrest).
        exists w'. rewrite Hrun, <- app_assoc. split; [reflexivity|exact Hrest].
Qed.

(** [noosh_read_line] returns the first line of the input, NUL-terminated,
    and leaves what follows the newline to be read. *)
Lemma read_line_spec (w : world) :
  exists w',
    noosh_read_line H w = Ret (line_of (w_stdin w) ++ [NUL]) w' /\
    w_stdin w' = after_line (w_stdin w) /\
    w_stdout w' = w_stdout w /\ w_stderr w' = w_stderr w /\
    w_cwd w' = w_cwd w.
Proof.
  unfold noosh_read_line, bind, malloc. rewrite Hgen.
  cbv beta iota delta [negb].
  apply (@read_loop_spec (w_stdin w) (S (length (w_stdin w))) NOOSH_RL_BUFSIZE
                         [] (log (Malloc (1 * NOOSH_RL_BUFSIZE)) w));
    [reflexivity|cbn; lia].
Qed.

Lemma read_line_eof (w : world) :
  w_stdin w = [] ->
  noosh_read_line H w = Ret [NUL] (log (Malloc (1 * NOOSH_RL_BUFSIZE)) w).
Proof.
  intros Hin. unfold noosh_read_line, bind, malloc. rewrite Hgen. cbn.
  unfold bind, getchar. cbn. rewrite Hin. reflexivity.
Qed.

Lemma split_line_empty (w : world) :
  noosh_split_line H [NUL] w
  = Ret (array_of [], [NUL])
        (log (Malloc (NOOSH_TOK_BUFSIZE * sizeof_char_ptr)) w).
Proof.
  unfold noosh_split_line, bind, malloc. rewrite Hgen. reflexivity.
Qed.

Lemma loop_eof_step (n : nat) (w : world) :
  w_stdin w = [] ->
  noosh_loop H (S n) w = noosh_loop H n (eof_step w).
Proof.
  intros Hin. cbn [noosh_loop]. unfold bind at 1. unfold printf at 1.
  unfold bind at 1. rewrite read_line_eof by exact Hin.
  unfold bind at 1. rewrite split_line_empty.
  reflexivity.
Qed.

Lemma loop_eof (n : nat) :
  forall w,
    w_stdin w = [] ->
    exists w',
      noosh_loop H n w = OutOfFuel w' /\
      w_stdin w' = [] /\
      w_stdout w' = w_stdout w ++ concat (repeat (lit "> ") n) /\
      w_stderr w' = w_stderr w.
Proof.
  induction n as [|n IH]; intros w Hin.
  - exists w. cbn. rewrite app_nil_r. auto.
  - rewrite (loop_eof_step n w Hin).
    destruct (IH (eof_step w) Hin) as (w' & Hrun & Hin' & Hout & Herr).
    exists w'. split; [exact Hrun|]. split; [exact Hin'|].
    split; [|exact Herr].
    rewrite Hout. cbn. now rewrite <- app_assoc.
Qed.

End EndOfInput.

(** C1, as the code has it: at the end of the input [noosh_read_line]
    returns the empty line, which is dispatched to nothing with the result
    1 (continue), and the loop goes on: on a host that grants its
    allocations, with no byte left to read, the loop has not stopped after
    any number [n] of iterations, [main] has not returned, and the output
    is [n] prompts. *)
Theorem loop_runs_on_at_end_of_input (H : host) (n : nat) (w : world) :
  generous H ->
  w_stdin w = [] ->
  noosh_read_line H w = Ret [NUL] (log (Malloc (1 * NOOSH_RL_BUFSIZE)) w) /\
  (forall w1, noosh_execute H [NUL] (array_of []) w1 = Ret 1 w1) /\
  exists w',
    noosh_loop H n w = OutOfFuel w' /\
    main H n w = OutOfFuel w' /\
    w_stdin w' = [] /\
    w_stdout w' = w_stdout w ++ concat (repeat (lit "> ") n) /\
    w_stderr w' = w_stderr w.
Proof.
  intros Hgen Hin. split; [now apply read_line_eof|]. split; [reflexivity|].
  destruct (loop_eof Hgen n w Hin) as (w' & Hrun & Hin' & Hout & Herr).
  exists w'. repeat split; try assumption.
  unfold main, bind. now rewrite Hrun.
Qed.

Lemma loop_runs_on_at_end_of_input_witness :
  noosh_read_line calm_host (boot [])
  = Ret [NUL] (log (Malloc (1 * NOOSH_RL_BUFSIZE)) (boot [])) /\
  (forall w1, noosh_execute calm_host [NUL] (array_of []) w1 = Ret 1 w1) /\
  exists w',
    noosh_loop calm_host 3 (boot []) = OutOfFuel w' /\
    main calm_host 3 (boot []) = OutOfFuel w' /\
    w_stdin w' = [] /\
    w_stdout w' = w_stdout (boot []) ++ concat (repeat (lit "> ") 3) /\
    w_stderr w' = w_stderr (boot []).
Proof.
  apply (@loop_runs_on_at_end_of_input calm_host 3 (boot [])).
  - intros w size. reflexivity.
  - reflexivity.
Defined.

(** C1, as the claim states it, fails: with nothing to read, no number of
    iterations makes [main] return. *)
Lemma end_of_input_does_not_stop :
  ~ exists n w', main calm_host n (boot []) = Ret EXIT_SUCCESS w'.
Proof.
  intros (n & w' & Hmain).
  destruct (@loop_eof calm_host generous_calm_host n (boot []) eq_refl)
    as (w2 & Hrun & _).
  unfold main, bind in Hmain. rewrite Hrun in Hmain. discriminate Hmain.
Qed.

(* ================================================================== *)
(** ** The theorems at work *)

Lemma execute_launches_external_witness :
  noosh_execute calm_host (lit "ls" ++ NUL :: lit "-l" ++ [NUL])
                (array_of [0; 3]%nat) (boot [])
  = noosh_launch calm_host (lit "ls" ++ NUL :: lit "-l" ++ [NUL])
                 (array_of [0; 3]%nat) (boot []) /\
  exists w',
    noosh_execute calm_host (lit "ls" ++ NUL :: lit "-l" ++ [NUL])
                  (array_of [0; 3]%nat) (boot [])
    = Ret 1 w' /\
    exists k,
      w_calls w'
      = [Fork; Execvp (lit "ls") [lit "ls"; lit "-l"]]
        ++ repeat (Waitpid 100) (S k).
Proof.
  destruct (@execute_launches_external calm_host
              (lit "ls" ++ NUL :: lit "-l" ++ [NUL]) 0%nat [3%nat] (boot []))
    as (Hsame & _ & w' & Hrun & Hcalls).
  - intros [E|[E|[E|[E|[]]]]]; discriminate E.
  - intros reports E. injection E as <-. reflexivity.
  - intros pid _ w0. reflexivity.
  - split; [exact Hsame|]. exists w'. split; [exact Hrun|exact Hcalls].
Defined.

(** C2: the launcher does not look at what [waitpid] returns.  On a host
    on which [SIGCHLD] is ignored the end of the child is not kept for
    [waitpid], which fails with [ECHILD] and leaves [status] unwritten.
    For the command [true], whose program is found and ends at once with
    status 0, the loop then tests the value [status] happens to hold:
    where that value is neither an exit nor a death by signal,
    [noosh_execute] does not return 1, it never returns; where it looks
    like an exit, 1 is returned by chance. *)
Lemma launch_tests_unwritten_status :
  (exists w',
     noosh_execute heedless_host (lit "true" ++ [NUL]) (array_of [0%nat])
                   (boot [])
     = Hang w' /\
     w_calls w'
     = [Fork; Execvp (lit "true") [lit "true"]; Waitpid 100; Waitpid 100] /\
     w_errno w' = ECHILD) /\
  (exists w',
     noosh_execute lucky_host (lit "true" ++ [NUL]) (array_of [0%nat])
                   (boot [])
     = Ret 1 w' /\
     w_calls w' = [Fork; Execvp (lit "true") [lit "true"]; Waitpid 100] /\
     w_errno w' = ECHILD).
Proof.
  split.
  - exists (final_world (noosh_execute heedless_host (lit "true" ++ [NUL])
                           (array_of [0%nat]) (boot []))).
    split; [|split]; vm_compute; reflexivity.
  - exists (final_world (noosh_execute lucky_host (lit "true" ++ [NUL])
                           (array_of [0%nat]) (boot []))).
    split; [|split]; vm_compute; reflexivity.
Qed.



Lemma pwd_prints_or_exits_witness :
  (exists w',
     noosh_pwd calm_host (lit "pwd" ++ [NUL]) (array_of [0%nat]) (boot [])
     = Ret 1 w' /\
     NooshC.noosh_pwd calm_host (lit "pwd" ++ [NUL]) (array_of [0%nat]) (boot [])
     = Ret 1 w' /\
     w_stdout w' = lit "/" ++ LF /\
     w_stderr w' = []) /\
  (exists w',
     noosh_pwd lost_host (lit "pwd" ++ [NUL]) (array_of [0%nat]) (boot [])
     = Exited EXIT_FAILURE w' /\
     NooshC.noosh_pwd lost_host (lit "pwd" ++ [NUL]) (array_of [0%nat]) (boot [])
     = Exited EXIT_FAILURE w' /\
     EXIT_FAILURE <> 0 /\
     w_stderr w' = lit "noosh: No such file or directory" ++ LF /\
     w_stdout w' = []).
Proof.
  split.
  - exact (proj1 (@pwd_prints_or_exits calm_host (lit "pwd" ++ [NUL])
                    (array_of [0%nat]) (boot []) eq_refl) eq_refl).
  - exact (proj2 (@pwd_prints_or_exits lost_host (lit "pwd" ++ [NUL])
                    (array_of [0%nat]) (boot []) eq_refl) 2 eq_refl).
Defined.

Lemma cd_reports_and_continues_witness :
  (exists w',
     noosh_cd calm_host (lit "cd" ++ [NUL]) (array_of [0%nat]) (boot [])
     = Ret 1 w' /\
     w_stderr w' = cd_usage /\
     w_stdout w' = [] /\
     w_cwd w' = lit "/" /\
     w_calls w' = []) /\
  (exists w',
     noosh_cd lost_host (lit "cd" ++ NUL :: lit "/nowhere" ++ [NUL])
              (array_of [0; 3]%nat) (boot [])
     = Ret 1 w' /\
     w_stderr w' = lit "noosh: No such file or directory" ++ LF /\
     w_cwd w' = lit "/" /\
     w_calls w' = [Chdir (lit "/nowhere")]).
Proof.
  split.
  - exact (proj1 (proj2 (@cd_reports_and_continues calm_host
                           (lit "cd" ++ [NUL]) (array_of [0%nat]) (boot [])))
                 eq_refl).
  - exact (proj2 (proj2 (@cd_reports_and_continues lost_host
                           (lit "cd" ++ NUL :: lit "/nowhere" ++ [NUL])
                           (array_of [0; 3]%nat) (boot [])))
                 3%nat 2 eq_refl eq_refl).
Defined.

(* ================================================================== *)
(** ** Two sessions *)

(** [help] then [exit]: the banner, the four builtin names, and the
    process ends with [EXIT_SUCCESS]. *)
Example session_help_exit :
  exists w',
    main calm_host 2 (boot (lit "help" ++ LF ++ lit "exit" ++ LF))
    = Ret EXIT_SUCCESS w' /\
    w_stdout w'
    = lit "> noosh" ++ LF
      ++ lit "Type program names and arguments, and hit enter." ++ LF
      ++ lit "The following are built in:" ++ LF
      ++ lit "  cd" ++ LF ++ lit "  pwd" ++ LF ++ lit "  help" ++ LF
      ++ lit "  exit" ++ LF
      ++ lit "Use the man command for information on other programs." ++ LF
      ++ lit "> " /\
    w_stderr w' = [].
Proof.
  exists (world_of (main calm_host 2
                      (boot (lit "help" ++ LF ++ lit "exit" ++ LF)))
                   (boot [])).
  split; [|split]; vm_compute; reflexivity.
Qed.

(** A program that is not found, with the output in a pipe: the child
    reports it and its [exit] writes out the prompt it has a copy of, the
    shell reads on, and [exit] ends it with [EXIT_SUCCESS]; two prompts
    were written and three are in the output. *)
Example session_missing_program :
  exists w',
    main bare_host 2
         (boot (lit "nonexistent_prog_xyz" ++ LF ++ lit "exit" ++ LF))
    = Ret EXIT_SUCCESS w' /\
    w_stdout w' = lit "> > > " /\
    w_stderr w' = lit "noosh: No such file or directory" ++ LF.
Proof.
  exists (world_of (main bare_host 2
                      (boot (lit "nonexistent_prog_xyz" ++ LF
                             ++ lit "exit" ++ LF)))
                   (boot [])).
  split; [|split]; vm_compute; reflexivity.
Qed.

(* ================================================================== *)
(** ** The line reader *)

Lemma line_split (input : list ascii) :
  ~ In "010"%char (line_of input) /\
  (input = line_of input ++ "010"%char :: after_line input \/
   (input = line_of input /\ after_line input = [])).
Proof.
  induction input as [|c rest [IHno IHsplit]]; simpl.
  - split; [tauto|]. right. split; reflexivity.
  - destruct (Ascii.eqb c "010"%char) eqn:E.
    + apply Ascii.eqb_eq in E. subst c. split; [simpl; tauto|]. now left.
    + apply Ascii.eqb_neq in E. split.
      * simpl. intros [E'|E']; [now apply E|now apply IHno].
      * destruct IHsplit as [IH|[IH1 IH2]].
        -- left. simpl. now rewrite <- IH.
        -- right. split; [simpl; now rewrite <- IH1|exact IH2].
Qed.

Lemma set_stdin_log (i j : list ascii) (c : call) (w : world) :
  set_stdin i (log c (set_stdin j w)) = log c (set_stdin i w).
Proof. reflexivity. Qed.

Lemma set_stdin_log_all (i : list ascii) (cs : list call) (w : world) :
  set_stdin i (log_all cs w) = log_all cs (set_stdin i w).
Proof.
  revert w. induction cs as [|c cs IH]; intros w; [reflexivity|].
  unfold log_all in *. simpl. now rewrite IH.
Qed.

Lemma log_all_stdin (cs : list call) (w : world) :
  w_stdin (log_all cs w) = w_stdin w.
Proof.
  revert w. induction cs as [|c cs IH]; intros w; [reflexivity|].
  unfold log_all in *. simpl. now rewrite IH.
Qed.

Lemma log_all_cwd (cs : list call) (w : world) :
  w_cwd (log_all cs w) = w_cwd w.
Proof.
  revert w. induction cs as [|c cs IH]; intros w; [reflexivity|].
  unfold log_all in *. simpl. now rewrite IH.
Qed.

Section ReadLoop.

Variable H : host.

(** The loop of [noosh_read_line] on any host: it returns the buffer with
    the rest of the line and a NUL appended, having grown it by 1024 bytes
    whenever it was full, or an allocation is refused and the process
    exits. *)
Lemma read_loop_full (input : list ascii) :
  forall (n : nat) (q : nat) (buffer : memory) (w : world),
    w_stdin w = input ->
    (length input < n)%nat ->
    rl_capacity q - NOOSH_RL_BUFSIZE <= Z.of_nat (length buffer)
      < rl_capacity q ->
    match read_loop H n (rl_capacity q) (Z.of_nat (length buffer)) buffer w with
    | Ret line w' =>
        line = buffer ++ line_of input ++ [NUL] /\
        exists q',
          (q <= q')%nat /\
          rl_capacity q' - NOOSH_RL_BUFSIZE
            <= Z.of_nat (length (buffer ++ line_of input)) < rl_capacity q' /\
          w' = log_all (map (fun k => Realloc (rl_capacity k))
                            (seq (S q) (q' - q)))
                       (set_stdin (after_line input) w)
    | Exited code w' =>
        code = EXIT_FAILURE /\
        w_stderr w' = w_stderr w ++ alloc_diag /\
        w_stdout w' = w_stdout w /\
        exists w0 size e, h_alloc H w0 size = Fail e
    | _ => False
    end.
Proof.
  induction input as [|c rest IH]; intros n q buffer w Hin Hn Hcap;
    (destruct n as [|n]; [simpl in Hn; lia|]);
    cbn [read_loop]; unfold bind at 1; unfold getchar; rewrite Hin.
  - unfold ret. rewrite store_end. split; [reflexivity|].
    exists q. rewrite Nat.sub_diag, app_nil_r. cbn [line_of after_line].
    split; [lia|]. split; [exact Hcap|].
    rewrite <- Hin. now destruct w.
  - cbn [line_of after_line].
    destruct (Ascii.eqb c "010"%char).
    + unfold ret. rewrite store_end. split; [reflexivity|].
      exists q. rewrite Nat.sub_diag, app_nil_r.
      split; [lia|]. split; [exact Hcap|reflexivity].
    + rewrite store_end.
      assert (Hpos : Z.of_nat (length buffer) + 1
                     = Z.of_nat (length (buffer ++ [c])))
        by (rewrite length_app; simpl; lia).
      rewrite Hpos.
      assert (Hn' : (length rest < n)%nat) by (simpl in Hn; lia).
      assert (Hkey :
        forall (q1 : nat) (w1 : world),
          (q <= q1)%nat ->
          rl_capacity q1 - NOOSH_RL_BUFSIZE
            <= Z.of_nat (length (buffer ++ [c])) < rl_capacity q1 ->
          w_stdin w1 = rest ->
          w_stderr w1 = w_stderr w -> w_stdout w1 = w_stdout w ->
          (forall i, set_stdin i w1
                     = log_all (map (fun k => Realloc (rl_capacity k))
                                    (seq (S q) (q1 - q))) (set_stdin i w)) ->
          match read_loop H n (rl_capacity q1)
                          (Z.of_nat (length (buffer ++ [c])))
                          (buffer ++ [c]) w1 with
          | Ret line w' =>
              line = buffer ++ (c :: line_of rest) ++ [NUL] /\
              exists q',
                (q <= q')%nat /\
                rl_capacity q' - NOOSH_RL_BUFSIZE
                  <= Z.of_nat (length (buffer ++ c :: line_of rest))
                  < rl_capacity q' /\
                w' = log_all (map (fun k => Realloc (rl_capacity k))
                                  (seq (S q) (q' - q)))
                             (set_stdin (after_line rest) w)
          | Exited code w' =>
              code = EXIT_FAILURE /\
              w_stderr w' = w_stderr w ++ alloc_diag /\
              w_stdout w' = w_stdout w /\
              exists w0 size e, h_alloc H w0 size = Fail e
          | _ => False
          end).
      { intros q1 w1 Hq1 Hcap1 Hin1 Herr1 Hout1 Hw1.
        specialize (IH n q1 (buffer ++ [c]) w1 Hin1 Hn' Hcap1).
        destruct (read_loop H n (rl_capacity q1)
                            (Z.of_nat (length (buffer ++ [c])))
                            (buffer ++ [c]) w1)
          as [line w'|code w'|r w'|w'|w']; try contradiction.
        - destruct IH as (Hline & q' & Hq' & Hcap' & Hw').
          rewrite <- app_assoc in Hline, Hcap'. simpl in Hline, Hcap'.
          split; [exact Hline|]. exists q'.
          split; [lia|]. split; [exact Hcap'|].
          rewrite Hw', Hw1, <- log_all_app, <- map_app.
          do 2 f_equal.
          replace (q' - q)%nat with ((q1 - q) + (q' - q1))%nat by lia.
          rewrite seq_app. do 2 f_equal. lia.
        - destruct IH as (Hcode & Herr & Hout & Hfail).
          rewrite Herr1 in Herr. rewrite Hout1 in Hout.
          repeat split; assumption. }
      destruct (Z.of_nat (length (buffer ++ [c])) >=? rl_capacity q) eqn:Hfull.
      * unfold bind at 1. unfold realloc.
        destruct (h_alloc H (set_stdin rest w) (rl_capacity q + NOOSH_RL_BUFSIZE))
          as [[]|e] eqn:Halloc;
          cbv beta iota delta [negb ret bind eprintf exit].
        -- rewrite <- Hpos in Hfull. rewrite Z.geb_le in Hfull.
           replace (rl_capacity q + NOOSH_RL_BUFSIZE) with (rl_capacity (S q))
             by (unfold rl_capacity; lia).
           apply Hkey; [lia| |reflexivity|reflexivity|reflexivity|].
           ++ unfold rl_capacity, NOOSH_RL_BUFSIZE in *. lia.
           ++ intros i. replace (S q - q)%nat with 1%nat by lia. reflexivity.
        -- cbn. repeat split; try reflexivity. eauto.
      * apply Hkey; [lia| |reflexivity|reflexivity|reflexivity|].
        -- assert (Hlt : Z.of_nat (length (buffer ++ [c])) < rl_capacity q)
             by (destruct (Z.geb_spec (Z.of_nat (length (buffer ++ [c])))
                                      (rl_capacity q)); [discriminate|lia]).
           unfold rl_capacity, NOOSH_RL_BUFSIZE in *. lia.
        -- intros i. rewrite Nat.sub_diag. reflexivity.
Qed.

End ReadLoop.

Lemma read_line_full (H : host) (w : world) :
  match noosh_read_line H w with
  | Ret line w' =>
      line = line_of (w_stdin w) ++ [NUL] /\
      exists q,
        Z.of_nat q = Z.of_nat (length (line_of (w_stdin w))) / NOOSH_RL_BUFSIZE /\
        w' = log_all (read_calls q) (set_stdin (after_line (w_stdin w)) w)
  | Exited code w' =>
      code = EXIT_FAILURE /\
      w_stderr w' = w_stderr w ++ alloc_diag /\
      w_stdout w' = w_stdout w /\
      exists w0 size e, h_alloc H w0 size = Fail e
  | _ => False
  end.
Proof.
  unfold noosh_read_line. unfold bind at 1. unfold malloc.
  destruct (h_alloc H w (1 * NOOSH_RL_BUFSIZE)) as [[]|e] eqn:Ha;
    cbv beta iota delta [negb].
  - pose proof (@read_loop_full H (w_stdin w) (S (length (w_stdin w))) O []
                  (log (Malloc (1 * NOOSH_RL_BUFSIZE)) w) eq_refl) as Hloop.
    assert (Hfuel : (length (w_stdin w) < S (length (w_stdin w)))%nat) by lia.
    assert (Hcap0 : rl_capacity 0 - NOOSH_RL_BUFSIZE
                    <= Z.of_nat (length (@nil ascii)) < rl_capacity 0)
      by (unfold rl_capacity, NOOSH_RL_BUFSIZE; simpl; lia).
    specialize (Hloop Hfuel Hcap0). clear Hfuel Hcap0.
    change (rl_capacity 0) with NOOSH_RL_BUFSIZE in Hloop.
    change (Z.of_nat (length (@nil ascii))) with 0 in Hloop.
    change (w_stdin (log (Malloc (1 * NOOSH_RL_BUFSIZE)) w))
      with (w_stdin w).
    destruct (read_loop H (S (length (w_stdin w))) NOOSH_RL_BUFSIZE 0 [] _)
      as [line w'|code w'|r w'|w'|w']; try contradiction.
    + destruct Hloop as (Hline & q & _ & Hcap & Hw).
      split; [exact Hline|]. exists q. simpl in Hcap. split.
      * unfold rl_capacity, NOOSH_RL_BUFSIZE in *.
        apply Z.div_unique
          with (r := Z.of_nat (length (line_of (w_stdin w))) - 1024 * Z.of_nat q);
          lia.
      * rewrite Hw, Nat.sub_0_r. reflexivity.
    + exact Hloop.
  - cbn. repeat split; try reflexivity. eauto.
Qed.

(** X1: on a host that grants its allocations, [noosh_read_line] returns
    the characters of the input up to the first newline, or up to the end
    of the input when there is no newline, followed by NUL; the newline is
    consumed and not part of the line, what follows it stays to be read,
    and nothing is written. *)
Theorem read_line_first_line (H : host) (w : world) :
  generous H ->
  exists line rest w',
    noosh_read_line H w = Ret (line ++ [NUL]) w' /\
    ~ In "010"%char line /\
    (w_stdin w = line ++ "010"%char :: rest \/ (w_stdin w = line /\ rest = [])) /\
    w_stdin w' = rest /\
    w_stdout w' = w_stdout w /\ w_stderr w' = w_stderr w /\
    w_cwd w' = w_cwd w.
Proof.
  intros Hgen. pose proof (read_line_full H w) as Hfull.
  destruct (noosh_read_line H w) as [line w'|code w'|r w'|w'|w'];
    try contradiction.
  - destruct Hfull as (-> & q & _ & ->).
    destruct (line_split (w_stdin w)) as (Hno & Hsplit).
    exists (line_of (w_stdin w)), (after_line (w_stdin w)). eexists.
    split; [reflexivity|]. split; [exact Hno|]. split; [exact Hsplit|].
    rewrite log_all_stdin, log_all_stdout, log_all_stderr, log_all_cwd.
    repeat split.
  - destruct Hfull as (_ & _ & _ & w0 & size & e & Hfail).
    rewrite Hgen in Hfail. discriminate Hfail.
Qed.

Lemma read_line_first_line_witness :
  exists line rest w',
    noosh_read_line calm_host (boot (lit "ls -l" ++ LF ++ lit "exit"))
    = Ret (line ++ [NUL]) w' /\
    ~ In "010"%char line /\
    (w_stdin (boot (lit "ls -l" ++ LF ++ lit "exit"))
     = line ++ "010"%char :: rest \/
     (w_stdin (boot (lit "ls -l" ++ LF ++ lit "exit")) = line /\ rest = [])) /\
    w_stdin w' = rest /\
    w_stdout w' = w_stdout (boot (lit "ls -l" ++ LF ++ lit "exit")) /\
    w_stderr w' = w_stderr (boot (lit "ls -l" ++ LF ++ lit "exit")) /\
    w_cwd w' = w_cwd (boot (lit "ls -l" ++ LF ++ lit "exit")).
Proof.
  apply (@read_line_first_line calm_host (boot (lit "ls -l" ++ LF ++ lit "exit"))).
  intros w size. reflexivity.
Defined.

(** X2: the line buffer starts with 1024 bytes and grows by 1024 bytes
    each time it is full: on a host that grants its allocations a line of
    [n] characters is read with one [malloc] and [n / 1024] calls of
    [realloc], and the line with its NUL fits the last allocation.  When
    the first allocation is refused the process exits before it reads
    anything; on any host the reader returns or the process exits with
    [EXIT_FAILURE] after the diagnostic. *)
Theorem read_line_buffer (H : host) (w : world) :
  let n := length (line_of (w_stdin w)) in
  (generous H ->
   exists line w',
     noosh_read_line H w = Ret line w' /\
     length line = S n /\
     w_calls w' = w_calls w ++ read_calls (n / 1024) /\
     Z.of_nat (length line) <= rl_capacity (n / 1024)) /\
  (forall e,
      h_alloc H w (1 * NOOSH_RL_BUFSIZE) = Fail e ->
      exists w',
        noosh_read_line H w = Exited EXIT_FAILURE w' /\
        w_stdin w' = w_stdin w /\
        w_stderr w' = w_stderr w ++ alloc_diag) /\
  match noosh_read_line H w with
  | Ret _ _ => True
  | Exited code w' =>
      code = EXIT_FAILURE /\ w_stderr w' = w_stderr w ++ alloc_diag
  | _ => False
  end.
Proof.
  intros n. pose proof (read_line_full H w) as Hfull.
  split; [|split].
  - intros Hgen.
    destruct (noosh_read_line H w) as [line w'|code w'|r w'|w'|w'];
      try contradiction.
    + destruct Hfull as (-> & q & Hq & ->).
      assert (Hqn : q = (n / 1024)%nat).
      { apply Nat2Z.inj. rewrite Hq, Nat2Z.inj_div. reflexivity. }
      subst q. eexists. eexists. split; [reflexivity|].
      split; [rewrite length_app; cbn [length]; fold n; lia|].
      split; [now rewrite log_all_calls|].
      rewrite length_app. cbn [length]. fold n.
      unfold rl_capacity, NOOSH_RL_BUFSIZE.
      rewrite Nat2Z.inj_div. change (Z.of_nat 1024) with 1024.
      pose proof (Z.div_mod (Z.of_nat n) 1024 ltac:(lia)).
      pose proof (Z.mod_pos_bound (Z.of_nat n) 1024 ltac:(lia)). lia.
    + destruct Hfull as (_ & _ & _ & w0 & size & e & Hfail).
      rewrite Hgen in Hfail. discriminate Hfail.
  - intros e Hfail. unfold noosh_read_line, bind, malloc. rewrite Hfail.
    eexists. split; [reflexivity|]. split; reflexivity.
  - destruct (noosh_read_line H w) as [line w'|code w'|r w'|w'|w']; auto.
    destruct Hfull as (Hc & He & _). now split.
Qed.

Lemma read_line_buffer_witness :
  (exists line w',
     noosh_read_line calm_host (boot long_input) = Ret line w' /\
     length line = 1031%nat /\
     w_calls w' = [Malloc 1024; Realloc 2048] /\
     Z.of_nat (length line) <= 2048) /\
  (exists w',
     noosh_read_line broke_host (boot long_input) = Exited EXIT_FAILURE w' /\
     w_stdin w' = long_input /\
     w_stderr w' = alloc_diag).
Proof.
  pose proof (@read_line_buffer calm_host (boot long_input)) as Hcalm.
  pose proof (@read_line_buffer broke_host (boot long_input)) as Hbroke.
  cbv zeta in Hcalm, Hbroke.
  destruct Hcalm as (Hok & _). destruct Hbroke as (_ & Hfail & _).
  split.
  - apply Hok. intros w size. reflexivity.
  - apply (Hfail 12). reflexivity.
Defined.

(* ================================================================== *)
(** ** The tokenizer and the line's buffer *)

Lemma c_str_rest (s : list ascii) : c_str (skipn (length (c_str s)) s) = [].
Proof.
  induction s as [|c s IH]; simpl; [reflexivity|].
  destruct (is_nul c) eqn:E; simpl; [now rewrite E|exact IH].
Qed.

Lemma string_at_end (m : memory) (a : nat) :
  string_at m (a + length (string_at m a)) = [].
Proof.
  unfold string_at. rewrite Nat.add_comm, <- skipn_skipn. apply c_str_rest.
Qed.

Lemma string_at_in_range (m : memory) (p : nat) :
  string_at m p <> [] -> (p < length m)%nat.
Proof.
  intros Hne. destruct (Nat.lt_ge_cases p (length m)) as [Hlt|Hge]; [exact Hlt|].
  exfalso. apply Hne. unfold string_at. now rewrite skipn_all2.
Qed.

Lemma refines_last_nul (line m' : memory) :
  refines (line ++ [NUL]) m' -> string_at m' (length line) = [].
Proof.
  revert m'. induction line as [|c line IH]; intros m' Href;
    inversion Href as [|x y l l' Hxy Hrest]; subst.
  - inversion Hrest; subst. destruct Hxy as [->|[Hd _]]; [reflexivity|].
    discriminate Hd.
  - apply (IH l' Hrest).
Qed.

(** The last call of a tokenization that grows its array [q] times asks
    for [capacity q] slots. *)
Lemma split_calls_last (q : nat) (cs : list call) (d : call) :
  request_size (last (cs ++ split_calls q) d) = capacity q * sizeof_char_ptr.
Proof.
  unfold split_calls. destruct q as [|q].
  - cbn [seq map]. rewrite last_last. reflexivity.
  - rewrite seq_S, map_app. cbn [map Nat.add].
    change (Malloc (capacity 0 * sizeof_char_ptr)
            :: map (fun k => Realloc (capacity k * sizeof_char_ptr)) (seq 1 q)
               ++ [Realloc (capacity (S q) * sizeof_char_ptr)])
      with ((Malloc (capacity 0 * sizeof_char_ptr)
             :: map (fun k => Realloc (capacity k * sizeof_char_ptr))
                    (seq 1 q))
            ++ [Realloc (capacity (S q) * sizeof_char_ptr)]).
    rewrite app_assoc, last_last. reflexivity.
Qed.

(** X3: the tokenizer works in place.  On a host that grants its
    allocations, the buffer it leaves is the line's buffer with some
    delimiters overwritten by NUL and nothing else changed; every token of
    the array points inside the line; the calls it makes are one [malloc]
    and one [realloc] for every 64 tokens, and the array with its [NULL]
    fits the bytes that the last of these calls asked for; and nothing is
    read or written. *)
Theorem split_line_in_place (H : host) (line : str) (w : world) :
  generous H ->
  exists ptrs m' w',
    noosh_split_line H (line ++ [NUL]) w = Ret (array_of ptrs, m') w' /\
    refines (line ++ [NUL]) m' /\
    length m' = S (length line) /\
    Forall (fun p => (p < length line)%nat) ptrs /\
    w_calls w' = w_calls w ++ split_calls (length ptrs / 64) /\
    Z.of_nat (length (array_of ptrs)) * sizeof_char_ptr
    <= request_size (last (w_calls w') Fork) /\
    w_stdin w' = w_stdin w /\ w_stdout w' = w_stdout w /\
    w_stderr w' = w_stderr w /\ w_cwd w' = w_cwd w.
Proof.
  intros Hgen.
  destruct (split_line_generous (line ++ [NUL]) w Hgen)
    as (ptrs & m' & Hrun & Href & Hstr).
  exists ptrs, m'. eexists. split; [exact Hrun|]. split; [exact Href|].
  split; [|split; [|split; [|split]]].
  - rewrite (refines_length Href), length_app. simpl. lia.
  - assert (Htok : Forall (fun t => t <> [] /\ no_delim t)
                          (token_strings m' ptrs)).
    { rewrite Hstr. apply Runs_tokens with (s := c_str (line ++ [NUL])).
      apply Runs_maximal_runs. }
    unfold token_strings in Htok. rewrite Forall_map in Htok.
    eapply Forall_impl; [|exact Htok]. intros p [Hne _]. cbv beta in Hne.
    pose proof (string_at_in_range m' p Hne) as Hlt.
    rewrite (refines_length Href), length_app in Hlt. simpl in Hlt.
    assert (p <> length line)
      by (intros ->; apply Hne; now apply refines_last_nul).
    lia.
  - apply log_all_calls.
  - rewrite log_all_calls, split_calls_last.
    unfold array_of. rewrite length_app, length_map. cbn [length].
    unfold capacity, NOOSH_TOK_BUFSIZE, sizeof_char_ptr.
    rewrite Nat2Z.inj_div. change (Z.of_nat 64) with 64.
    pose proof (Z.div_mod (Z.of_nat (length ptrs)) 64 ltac:(lia)).
    pose proof (Z.mod_pos_bound (Z.of_nat (length ptrs)) 64 ltac:(lia)). lia.
  - rewrite log_all_stdin, log_all_stdout, log_all_stderr, log_all_cwd.
    repeat split.
Qed.

Lemma split_line_in_place_witness :
  exists ptrs m' w',
    noosh_split_line calm_host (lit "ls  -l /tmp" ++ [NUL]) (boot [])
    = Ret (array_of ptrs, m') w' /\
    refines (lit "ls  -l /tmp" ++ [NUL]) m' /\
    length m' = S (length (lit "ls  -l /tmp")) /\
    Forall (fun p => (p < length (lit "ls  -l /tmp"))%nat) ptrs /\
    w_calls w' = w_calls (boot []) ++ split_calls (length ptrs / 64) /\
    Z.of_nat (length (array_of ptrs)) * sizeof_char_ptr
    <= request_size (last (w_calls w') Fork) /\
    w_stdin w' = w_stdin (boot []) /\ w_stdout w' = w_stdout (boot []) /\
    w_stderr w' = w_stderr (boot []) /\ w_cwd w' = w_cwd (boot []).
Proof.
  apply (@split_line_in_place calm_host (lit "ls  -l /tmp") (boot [])).
  intros w size. reflexivity.
Defined.

(** Where [strtok] finds its token: at or after the saved pointer, and
    the new saved pointer is at or after the token's end. *)
Lemma strtok_bounds (m : memory) (p : nat) :
  match strtok None NOOSH_TOK_DELIM m p with
  | (Some b, m1, p1) =>
      (p <= b)%nat /\ (b + length (string_at m1 b) <= p1)%nat
  | (None, _, _) => True
  end.
Proof.
  unfold strtok.
  destruct (is_nul (peek m p)); [exact I|].
  set (b := (p + strspn (skipn p m) NOOSH_TOK_DELIM)%nat).
  destruct (is_nul (peek m b)) eqn:E1; [exact I|].
  set (s1 := skipn b m).
  set (n := strcspn s1 NOOSH_TOK_DELIM).
  destruct (strcspn_run s1) as [_ Hnonul]. fold n in Hnonul.
  assert (Hlen : (length (firstn n s1) <= n)%nat)
    by (rewrite length_firstn; lia).
  destruct (is_nul (peek m (b + n))) eqn:E2.
  - split; [unfold b; lia|].
    assert (Hat : string_at m b = firstn n s1).
    { unfold string_at. fold s1.
      rewrite <- (firstn_skipn n s1) at 1.
      rewrite c_str_app_clean by exact Hnonul.
      rewrite (peek_nul_c_str s1 n), app_nil_r; [reflexivity|].
      unfold s1. now rewrite peek_skipn. }
    rewrite Hat. lia.
  - split; [unfold b; lia|].
    assert (He : (b + n < length m)%nat) by now apply peek_in_range.
    assert (Hn : (n < length s1)%nat) by (unfold s1; rewrite length_skipn; lia).
    assert (Hat : string_at (poke m (b + n) NUL) b = firstn n s1).
    { unfold string_at. rewrite skipn_poke. fold s1.
      rewrite poke_split by assumption. now apply c_str_app_nul. }
    rewrite Hat. lia.
Qed.

Lemma apart_weaken (m : memory) (lo lo' : nat) (ptrs : list nat) :
  (lo' <= lo)%nat -> apart m lo ptrs -> apart m lo' ptrs.
Proof.
  destruct ptrs as [|b rest]; simpl; [trivial|].
  intros Hle [Hlo Hrest]. split; [lia|exact Hrest].
Qed.

Section SplitOrder.

Variable H : host.

Lemma split_loop_apart (n : nat) :
  forall (m : memory) (p : nat) (w : world) (ptrs0 : list nat) (bufsize : Z),
    match
      (let '(tok, m1, p1) := strtok None NOOSH_TOK_DELIM m p in
       split_loop H n tok
         (mkSplit m1 p1 bufsize (Z.of_nat (length ptrs0))
                  (map Some ptrs0))) w
    with
    | Ret st w' =>
        exists ptrs,
          s_tokens st = map Some (ptrs0 ++ ptrs) /\
          s_position st = Z.of_nat (length (ptrs0 ++ ptrs)) /\
          refines m (s_line st) /\
          apart (s_line st) p ptrs
    | _ => True
    end.
Proof.
  induction n as [|n IH]; intros m p w ptrs0 bufsize.
  { destruct (strtok None NOOSH_TOK_DELIM m p) as [[tok m1] p1]. exact I. }
  pose proof (strtok_spec m p) as Hstep.
  pose proof (strtok_bounds m p) as Hbound.
  destruct (strtok None NOOSH_TOK_DELIM m p) as [[tok m1] p1].
  destruct tok as [b|].
  - destruct Hstep as (_ & _ & Href & _ & Hclean & _).
    destruct Hbound as (Hlo & Hhi).
    cbn [split_loop s_tokens s_position s_bufsize s_line s_save].
    rewrite store_token.
    assert (Hpos : Z.of_nat (length ptrs0) + 1 = Z.of_nat (length (ptrs0 ++ [b])))
      by (rewrite length_app; simpl; lia).
    rewrite Hpos.
    assert (Hkey :
      forall (bufsize1 : Z) (w1 : world),
        match
          (let '(token', line', save') := strtok None NOOSH_TOK_DELIM m1 p1 in
           split_loop H n token'
             (mkSplit line' save' bufsize1
                      (Z.of_nat (length (ptrs0 ++ [b])))
                      (map Some (ptrs0 ++ [b])))) w1
        with
        | Ret st w' =>
            exists ptrs,
              s_tokens st = map Some (ptrs0 ++ ptrs) /\
              s_position st = Z.of_nat (length (ptrs0 ++ ptrs)) /\
              refines m (s_line st) /\
              apart (s_line st) p ptrs
        | _ => True
        end).
    { intros bufsize1 w1.
      specialize (IH m1 p1 w1 (ptrs0 ++ [b]) bufsize1).
      destruct ((let '(token', line', save') := strtok None NOOSH_TOK_DELIM m1 p1 in
                 split_loop H n token'
                   (mkSplit line' save' bufsize1
                            (Z.of_nat (length (ptrs0 ++ [b])))
                            (map Some (ptrs0 ++ [b])))) w1)
        as [st w'|code w'|r w'|w'|w']; try exact I.
      destruct IH as (ptrs & Htok & Hposn & Href' & Hapart).
      exists (b :: ptrs).
      rewrite <- app_assoc in Htok, Hposn. simpl in Htok, Hposn.
      split; [exact Htok|]. split; [exact Hposn|].
      split; [now apply refines_trans with m1|].
      assert (Hsame : string_at (s_line st) b = string_at m1 b).
      { unfold string_at. apply refines_c_str; [|exact Hclean].
        now apply refines_skipn. }
      simpl. split; [exact Hlo|]. rewrite Hsame.
      now apply apart_weaken with p1. }
    destruct (Z.of_nat (length (ptrs0 ++ [b])) >=? bufsize).
    + unfold bind at 1 2. unfold realloc.
      destruct (h_alloc H w ((bufsize + NOOSH_TOK_BUFSIZE) * sizeof_char_ptr))
        as [[]|e]; cbv beta iota delta [negb ret bind eprintf exit].
      * apply Hkey.
      * exact I.
    + unfold bind at 1. unfold ret at 1. apply Hkey.
  - destruct Hstep as [-> _]. cbn. exists []. rewrite app_nil_r.
    repeat split. apply refines_refl.
Qed.

End SplitOrder.

Lemma array_of_inj (a b : list nat) : array_of a = array_of b -> a = b.
Proof.
  unfold array_of. intros E. apply app_inj_tail in E. destruct E as [E _].
  revert b E. induction a as [|x a IH]; intros [|y b] E; simpl in E;
    try discriminate; [reflexivity|].
  injection E as -> E. f_equal. now apply IH.
Qed.

Lemma apart_consecutive (m : memory) (ptrs : list nat) :
  forall lo i a b,
    apart m lo ptrs ->
    Forall (fun p => string_at m p <> []) ptrs ->
    nth_error ptrs i = Some a -> nth_error ptrs (S i) = Some b ->
    (a + length (string_at m a) < b)%nat.
Proof.
  induction ptrs as [|x rest IH]; intros lo i a b Hap Hne Ha Hb.
  - destruct i; discriminate Ha.
  - destruct Hap as [_ Hrest]. inversion Hne as [|? ? Hx Hne']; subst.
    destruct i as [|i].
    + injection Ha as <-. destruct rest as [|y rest']; [discriminate Hb|].
      injection Hb as <-. destruct Hrest as [Hle _].
      inversion Hne' as [|? ? Hy _]; subst.
      assert (y <> (x + length (string_at m x))%nat)
        by (intros ->; apply Hy; apply string_at_end).
      lia.
    + simpl in Ha, Hb. eapply IH; eassumption.
Qed.

(** X4: on a host that grants its allocations, the tokens lie in the
    buffer in the order of the array and do not overlap: the token in slot
    [i + 1] starts behind the NUL that ends the token in slot [i]. *)
Theorem split_line_tokens_in_order (H : host) (line : str) (w : world) :
  generous H ->
  exists ptrs m' w',
    noosh_split_line H (line ++ [NUL]) w = Ret (array_of ptrs, m') w' /\
    forall i a b,
      nth_error ptrs i = Some a -> nth_error ptrs (S i) = Some b ->
      (a + length (string_at m' a) < b)%nat.
Proof.
  intros Hgen.
  destruct (split_line_generous (line ++ [NUL]) w Hgen)
    as (ptrs & m' & Hrun & Href & Hstr).
  exists ptrs, m'. eexists. split; [exact Hrun|].
  assert (Htok : Forall (fun p => string_at m' p <> []) ptrs).
  { assert (Hall : Forall (fun t => t <> [] /\ no_delim t)
                          (token_strings m' ptrs)).
    { rewrite Hstr. apply Runs_tokens with (s := c_str (line ++ [NUL])).
      apply Runs_maximal_runs. }
    unfold token_strings in Hall. rewrite Forall_map in Hall.
    eapply Forall_impl; [|exact Hall]. now intros p [Hne _]. }
  assert (Hap : apart m' 0 ptrs).
  { revert Hrun. unfold noosh_split_line, bind, malloc. rewrite Hgen.
    cbv beta iota delta [negb].
    change (strtok (Some O) NOOSH_TOK_DELIM (line ++ [NUL]) O)
      with (strtok None NOOSH_TOK_DELIM (line ++ [NUL]) O).
    pose proof (@split_loop_apart H (S (length (line ++ [NUL])))
                  (line ++ [NUL]) O
                  (log (Malloc (NOOSH_TOK_BUFSIZE * sizeof_char_ptr)) w)
                  [] NOOSH_TOK_BUFSIZE) as Hloop.
    destruct (strtok None NOOSH_TOK_DELIM (line ++ [NUL]) O) as [[tok m1] p1].
    change (Z.of_nat (length (@nil nat))) with 0 in Hloop.
    change (map Some (@nil nat)) with (@nil (option nat)) in Hloop.
    destruct (split_loop H _ tok _ _) as [st w1|code w1|r w1|w1|w1];
      try discriminate.
    destruct Hloop as (ptrs' & Htok' & Hpos' & _ & Hap).
    unfold ret. intros E. injection E as Harr Hm _.
    rewrite Htok', Hpos' in Harr. simpl in Harr.
    rewrite <- (length_map Some ptrs'), store_end in Harr.
    apply array_of_inj in Harr. subst ptrs' m'. exact Hap. }
  intros i a b. now apply apart_consecutive with 0%nat.
Qed.

Lemma split_line_tokens_in_order_witness :
  exists ptrs m' w',
    noosh_split_line calm_host (lit " cp  a b" ++ [NUL]) (boot [])
    = Ret (array_of ptrs, m') w' /\
    forall i a b,
      nth_error ptrs i = Some a -> nth_error ptrs (S i) = Some b ->
      (a + length (string_at m' a) < b)%nat.
Proof.
  apply (@split_line_tokens_in_order calm_host (lit " cp  a b") (boot [])).
  intros w size. reflexivity.
Defined.

(* ================================================================== *)
(** ** More on dispatch *)

Section DispatchMore.

Variable H : host.

Lemma launch_returns_one (m : memory) (args : array) (w : world) :
  forall v w', noosh_launch H m args w = Ret v w' -> v = 1.
Proof.
  intros v w'. unfold noosh_launch. unfold bind at 1.
  destruct (fork _ _ _ w); unfold ret; intros E; inversion E. reflexivity.
Qed.

(** X5: [noosh_execute] returns 0 (terminate) only for a command whose
    first token is [exit], and then it has changed nothing. *)
Theorem only_exit_terminates (m : memory) (args : array) (w w' : world) :
  noosh_execute H m args w = Ret 0 w' ->
  exists p, slot args 0 = Some p /\ string_at m p = lit "exit" /\ w' = w.
Proof.
  intros Hrun. destruct (slot args 0) as [p|] eqn:Hslot.
  - exists p. split; [reflexivity|].
    rewrite (execute_scan H m args w Hslot) in Hrun.
    destruct (strcmp (string_at m p) (lit "cd") =? 0).
    { destruct (cd_returns H m args w) as (w1 & E). rewrite E in Hrun.
      discriminate Hrun. }
    destruct (strcmp (string_at m p) (lit "pwd") =? 0).
    { destruct (pwd_outcomes H m args w) as [(w1 & E)|(w1 & E)];
        rewrite E in Hrun; discriminate Hrun. }
    destruct (strcmp (string_at m p) (lit "help") =? 0).
    { destruct (help_returns m args w) as (w1 & E). rewrite E in Hrun.
      discriminate Hrun. }
    destruct (strcmp (string_at m p) (lit "exit") =? 0) eqn:Hexit.
    + split.
      * apply strcmp_eq; [apply c_str_no_nul|repeat constructor|].
        now apply Z.eqb_eq.
      * unfold noosh_exit, ret in Hrun. now injection Hrun as <-.
    + apply launch_returns_one in Hrun. discriminate Hrun.
  - unfold noosh_execute in Hrun. rewrite Hslot in Hrun. discriminate Hrun.
Qed.

(** X6: a command whose first token is one of the names of [builtin_str]
    runs inside the shell: however it ends, it has made no call of
    [fork], [execvp] or [waitpid]. *)
Theorem builtins_never_fork (m : memory) (args : array) (p : nat) (w : world) :
  slot args 0 = Some p ->
  In (string_at m p) builtin_str ->
  exists cs,
    w_calls (final_world (noosh_execute H m args w)) = w_calls w ++ cs /\
    forallb (fun c => negb (process_call c)) cs = true.
Proof.
  intros Hslot Hin.
  destruct (execute_builtin H m args w Hslot) as (Hcd & Hpwd & Hhelp & Hexit).
  destruct Hin as [E|[E|[E|[E|[]]]]]; symmetry in E.
  - rewrite (Hcd E). unfold noosh_cd, bind, chdir, eprintf, perror, ret.
    destruct (slot args 1) as [q|].
    + destruct (h_chdir H w (string_at m q)); cbn;
        exists [Chdir (string_at m q)]; split; reflexivity.
    + exists []. cbn. now rewrite app_nil_r.
  - rewrite (Hpwd E).
    unfold noosh_pwd, bind, malloc, getcwd, perror, printf, exit, ret.
    destruct (h_alloc H w (1 * PATH_MAX)) as [[]|e]; cbn.
    + destruct (h_getcwd H _ PATH_MAX) as [[]|e]; cbn;
        exists [Malloc (1 * PATH_MAX); Getcwd PATH_MAX];
        rewrite <- app_assoc; split; reflexivity.
    + exists [Malloc (1 * PATH_MAX)]. split; reflexivity.
  - rewrite (Hhelp E). exists []. cbn. now rewrite app_nil_r.
  - rewrite (Hexit E). exists []. cbn. now rewrite app_nil_r.
Qed.

(** X7: [cd] with a directory that [chdir] accepts reports nothing and
    makes it the working directory, and a [pwd] that follows prints that
    directory on a line of its own. *)
Theorem cd_then_pwd
        (m : memory) (args : array) (p : nat) (d : str) (w : world) :
  slot args 1 = Some p ->
  h_chdir H w (string_at m p) = Done d ->
  exists w1,
    noosh_cd H m args w = Ret 1 w1 /\
    w_cwd w1 = d /\ w_stderr w1 = w_stderr w /\ w_stdout w1 = w_stdout w /\
    forall m2 args2,
      h_alloc H w1 (1 * PATH_MAX) = Done tt ->
      h_getcwd H (log (Malloc (1 * PATH_MAX)) w1) PATH_MAX = Done tt ->
      exists w2,
        noosh_pwd H m2 args2 w1 = Ret 1 w2 /\
        w_stdout w2 = w_stdout w ++ d ++ LF /\
        w_stderr w2 = w_stderr w.
Proof.
  intros Hslot Hdir. unfold noosh_cd. rewrite Hslot.
  unfold bind at 1 2. unfold chdir. rewrite Hdir.
  cbv beta iota delta [negb Z.eqb ret]. eexists. split; [reflexivity|].
  split; [reflexivity|]. split; [reflexivity|]. split; [reflexivity|].
  intros m2 args2 Halloc Hcwd.
  unfold noosh_pwd, bind, malloc, getcwd, printf, ret.
  rewrite Halloc. cbv beta iota delta [negb]. rewrite Hcwd.
  eexists. split; [reflexivity|]. split; reflexivity.
Qed.

End DispatchMore.

Lemma only_exit_terminates_witness :
  exists p,
    slot (array_of [0%nat]) 0 = Some p /\
    string_at (lit "exit" ++ [NUL]) p = lit "exit" /\
    boot [] = boot [].
Proof.
  apply (@only_exit_terminates calm_host (lit "exit" ++ [NUL])
                               (array_of [0%nat]) (boot []) (boot [])).
  reflexivity.
Defined.

Lemma builtins_never_fork_witness :
  exists cs,
    w_calls (final_world (noosh_execute calm_host (lit "pwd" ++ [NUL])
                                        (array_of [0%nat]) (boot [])))
    = w_calls (boot []) ++ cs /\
    forallb (fun c => negb (process_call c)) cs = true.
Proof.
  apply (@builtins_never_fork calm_host (lit "pwd" ++ [NUL])
                              (array_of [0%nat]) 0%nat (boot [])).
  - reflexivity.
  - simpl. tauto.
Defined.

Lemma cd_then_pwd_witness :
  exists w1 w2,
    noosh_cd calm_host (lit "cd" ++ NUL :: lit "/tmp" ++ [NUL])
             (array_of [0; 3]%nat) (boot [])
    = Ret 1 w1 /\
    w_cwd w1 = lit "/tmp" /\
    noosh_pwd calm_host (lit "pwd" ++ [NUL]) (array_of [0%nat]) w1 = Ret 1 w2 /\
    w_stdout w2 = lit "/tmp" ++ LF.
Proof.
  destruct (@cd_then_pwd calm_host (lit "cd" ++ NUL :: lit "/tmp" ++ [NUL])
                         (array_of [0; 3]%nat) 3%nat (lit "/tmp") (boot [])
                         eq_refl eq_refl)
    as (w1 & Hcd & Hcwd & _ & _ & Hpwd).
  destruct (Hpwd (lit "pwd" ++ [NUL]) (array_of [0%nat]) eq_refl eq_refl)
    as (w2 & Hrun & Hout & _).
  exists w1, w2. repeat split; assumption.
Defined.

(* ================================================================== *)
(** ** Waiting for the child *)

Lemma log_all_set_child (cs : list call) (r : list wstatus) (w : world) :
  log_all cs (set_child r w) = set_child r (log_all cs w).
Proof.
  revert w. induction cs as [|c cs IH]; intros w; [reflexivity|].
  unfold log_all in *. simpl. now rewrite <- IH.
Qed.

Section Waiting.

Variable H : host.
Variable pid : Z.
Hypothesis Hdel : delivers H pid.

Lemma wait_loop_stops (stops : list wstatus) :
  forall (last : wstatus) (rest : list wstatus) (status : wstatus)
         (w : world) (n : nat),
    w_child w = stops ++ last :: rest ->
    forallb keeps_waiting stops = true ->
    keeps_waiting last = false ->
    (length stops < n)%nat ->
    wait_loop H n pid status w
    = Ret tt (set_child rest
                (log_all (repeat (Waitpid pid) (S (length stops))) w)).
Proof.
  induction stops as [|s stops IH];
    intros last rest status w n Hw Hstops Hlast Hn;
    (destruct n as [|n]; [simpl in Hn; lia|]);
    cbn [wait_loop]; unfold bind at 1; unfold waitpid at 1;
    rewrite Hw, (Hdel w); cbn [app].
  - unfold keeps_waiting in Hlast. rewrite Hlast. reflexivity.
  - cbn [forallb] in Hstops. apply andb_true_iff in Hstops.
    destruct Hstops as [Hs Hstops]. unfold keeps_waiting in Hs. rewrite Hs.
    rewrite (IH last rest s
                (set_child (stops ++ last :: rest) (log (Waitpid pid) w)) n
                eq_refl Hstops Hlast ltac:(simpl in Hn; lia)).
    rewrite log_all_set_child. reflexivity.
Qed.

Lemma wait_loop_blocks (stops : list wstatus) :
  forall (status : wstatus) (w : world) (n : nat),
    w_child w = stops ->
    forallb keeps_waiting stops = true ->
    (length stops < n)%nat ->
    wait_loop H n pid status w
    = Hang (set_child []
              (log_all (repeat (Waitpid pid) (S (length stops))) w)).
Proof.
  induction stops as [|s stops IH]; intros status w n Hw Hstops Hn;
    (destruct n as [|n]; [simpl in Hn; lia|]);
    cbn [wait_loop]; unfold bind at 1; unfold waitpid at 1; rewrite Hw.
  - destruct w as [i o e d en ch cs]. simpl in Hw. subst ch. reflexivity.
  - rewrite (Hdel w).
    cbn [forallb] in Hstops. apply andb_true_iff in Hstops.
    destruct Hstops as [Hs Hstops]. unfold keeps_waiting in Hs. rewrite Hs.
    rewrite (IH s (set_child stops (log (Waitpid pid) w)) n
                eq_refl Hstops ltac:(simpl in Hn; lia)).
    rewrite log_all_set_child. reflexivity.
Qed.

End Waiting.

(** X8: the shell waits through the stops of the program it has started.
    Where [waitpid] is delivered every state change of the child: when the
    program reports [stops] that are neither an exit nor a death by signal
    and then ends, [noosh_launch] calls [waitpid] once for each of these
    reports and once for the end, and returns 1; when the program never
    ends, [noosh_launch] does not return: the shell stays blocked in
    [waitpid]. *)
Theorem launch_waits_through_stops
        (H : host) (m : memory) (p : nat) (ptrs : list nat) (w : world)
        (pid : positive) (stops : list wstatus) :
  h_fork H w = Done pid ->
  delivers H (Z.pos pid) ->
  forallb keeps_waiting stops = true ->
  (forall last rest,
      h_execvp H (log Fork w) (string_at m p) (token_strings m (p :: ptrs))
      = Done (stops ++ last :: rest) ->
      keeps_waiting last = false ->
      exists w',
        noosh_launch H m (array_of (p :: ptrs)) w = Ret 1 w' /\
        w_calls w'
        = w_calls w
          ++ Fork :: Execvp (string_at m p) (token_strings m (p :: ptrs))
          :: repeat (Waitpid (Z.pos pid)) (S (length stops))) /\
  (h_execvp H (log Fork w) (string_at m p) (token_strings m (p :: ptrs))
   = Done stops ->
   exists w',
     noosh_launch H m (array_of (p :: ptrs)) w = Hang w' /\
     w_calls w'
     = w_calls w
       ++ Fork :: Execvp (string_at m p) (token_strings m (p :: ptrs))
       :: repeat (Waitpid (Z.pos pid)) (S (length stops))).
Proof.
  intros Hfork Hdel Hstops.
  assert (Hslot : slot (array_of (p :: ptrs)) 0 = Some p) by reflexivity.
  split.
  - intros last rest Hexec Hlast.
    unfold noosh_launch. rewrite Hslot, argv_of_array.
    unfold bind, fork, execvp. rewrite Hfork, Hexec.
    change (Z.pos pid <? 0) with false. cbv iota beta.
    cbn [w_child set_errno set_child].
    match goal with
    | |- context [wait_loop H ?n ?q ?st ?w0] =>
        rewrite (@wait_loop_stops H q Hdel stops last rest st w0 n
                   eq_refl Hstops Hlast)
          by (rewrite length_app; simpl; lia)
    end.
    eexists. split; [reflexivity|].
    cbn [w_calls set_child]. rewrite log_all_calls. cbn.
    rewrite <- !app_assoc. reflexivity.
  - intros Hexec.
    unfold noosh_launch. rewrite Hslot, argv_of_array.
    unfold bind, fork, execvp. rewrite Hfork, Hexec.
    change (Z.pos pid <? 0) with false. cbv iota beta.
    cbn [w_child set_errno set_child].
    match goal with
    | |- context [wait_loop H ?n ?q ?st ?w0] =>
        rewrite (@wait_loop_blocks H q Hdel stops st w0 n eq_refl Hstops)
          by lia
    end.
    eexists. split; [reflexivity|].
    cbn [w_calls set_child]. rewrite log_all_calls. cbn.
    rewrite <- !app_assoc. reflexivity.
Qed.

Lemma launch_waits_through_stops_witness :
  (exists w',
     noosh_launch calm_host (lit "vi" ++ [NUL]) (array_of [0%nat]) (boot [])
     = Ret 1 w' /\
     w_calls w'
     = [Fork; Execvp (lit "vi") [lit "vi"]; Waitpid 100; Waitpid 100]) /\
  (exists w',
     noosh_launch stuck_host (lit "vi" ++ [NUL]) (array_of [0%nat]) (boot [])
     = Hang w' /\
     w_calls w'
     = [Fork; Execvp (lit "vi") [lit "vi"]; Waitpid 100; Waitpid 100]).
Proof.
  split.
  - apply (proj1 (@launch_waits_through_stops calm_host (lit "vi" ++ [NUL])
                    0%nat [] (boot []) 100%positive [WStopped 19]
                    eq_refl (fun _ => eq_refl) eq_refl)
                 (WExited 3) []); reflexivity.
  - apply (proj2 (@launch_waits_through_stops stuck_host (lit "vi" ++ [NUL])
                    0%nat [] (boot []) 100%positive [WStopped 19]
                    eq_refl (fun _ => eq_refl) eq_refl)); reflexivity.
Defined.

(* ================================================================== *)
(** ** The loop on blank lines and [exit] *)

Lemma line_of_app (l rest : list ascii) :
  ~ In "010"%char l ->
  line_of (l ++ "010"%char :: rest) = l /\
  after_line (l ++ "010"%char :: rest) = rest.
Proof.
  induction l as [|c l IH]; intros Hno; simpl.
  - split; reflexivity.
  - destruct (Ascii.eqb c "010"%char) eqn:E.
    + apply Ascii.eqb_eq in E. exfalso. apply Hno. now left.
    + destruct IH as [IH1 IH2]; [intros Hin; apply Hno; now right|].
      now rewrite IH1, IH2.
Qed.

Lemma blank_facts (l : str) :
  blank l -> all_delim l /\ ~ In "010"%char l.
Proof.
  induction 1 as [|c l [Hd Hc] _ [IH1 IH2]].
  - split; [constructor|simpl; tauto].
  - split; [now constructor|]. simpl. intros [E|E]; [now apply Hc|now apply IH2].
Qed.

Lemma alloc_calls_not_process (q : nat) :
  forallb (fun c => negb (process_call c)) (read_calls q) = true /\
  forallb (fun c => negb (process_call c)) (split_calls q) = true.
Proof.
  unfold read_calls, split_calls. cbn [forallb process_call negb andb].
  split; apply forallb_forall; intros c Hc; apply in_map_iff in Hc;
    destruct Hc as (k & <- & _); reflexivity.
Qed.

Section LoopLines.

Variable H : host.
Hypothesis Hgen : generous H.

Lemma read_line_generous (w : world) :
  exists q,
    noosh_read_line H w
    = Ret (line_of (w_stdin w) ++ [NUL])
          (log_all (read_calls q) (set_stdin (after_line (w_stdin w)) w)).
Proof.
  pose proof (read_line_full H w) as Hfull.
  destruct (noosh_read_line H w) as [line w'|code w'|r w'|w'|w'];
    try contradiction.
  - destruct Hfull as (-> & q & _ & ->). now exists q.
  - destruct Hfull as (_ & _ & _ & w0 & size & e & Hfail).
    rewrite Hgen in Hfail. discriminate Hfail.
Qed.

(** One iteration on a blank line: a prompt, and the loop goes on behind
    the line. *)
Lemma loop_blank_line (l rest : list ascii) (w : world) :
  blank l ->
  w_stdin w = l ++ "010"%char :: rest ->
  exists w1 cs,
    (forall n, noosh_loop H (S n) w = noosh_loop H n w1) /\
    w_stdin w1 = rest /\
    w_stdout w1 = w_stdout w ++ lit "> " /\
    w_stderr w1 = w_stderr w /\ w_cwd w1 = w_cwd w /\
    w_calls w1 = w_calls w ++ cs /\
    forallb (fun c => negb (process_call c)) cs = true.
Proof.
  intros Hblank Hin.
  destruct (blank_facts Hblank) as [Hdelim Hno].
  destruct (@line_of_app l rest Hno) as [Hline Hafter].
  destruct (read_line_generous (put_out (lit "> ") w)) as (q & Hread).
  change (w_stdin (put_out (lit "> ") w)) with (w_stdin w) in Hread.
  rewrite Hin, Hline, Hafter in Hread.
  destruct (@split_line_generous H (l ++ [NUL])
              (log_all (read_calls q) (set_stdin rest (put_out (lit "> ") w)))
              Hgen) as (ptrs & m' & Hsplit & _ & Hstr).
  rewrite c_str_terminated in Hstr.
  rewrite (c_str_clean (no_delim_no_nul_of_delim Hdelim)) in Hstr.
  rewrite (runs_all_delim Hdelim) in Hstr.
  apply map_eq_nil in Hstr. subst ptrs.
  eexists. exists (read_calls q ++ split_calls 0). split.
  - intros n. cbn [noosh_loop]. unfold bind at 1. unfold printf at 1.
    unfold bind at 1. rewrite Hread.
    unfold bind at 1. rewrite Hsplit. reflexivity.
  - rewrite log_all_stdin, log_all_stdout, log_all_stderr, log_all_cwd.
    rewrite log_all_stdin, log_all_stdout, log_all_stderr, log_all_cwd.
    rewrite !log_all_calls. cbn [w_stdin w_stdout w_stderr w_cwd w_calls
                                 set_stdin put_out].
    repeat split; [now rewrite app_assoc|].
    rewrite forallb_app.
    destruct (alloc_calls_not_process q) as [-> _].
    destruct (alloc_calls_not_process 0) as [_ ->]. reflexivity.
Qed.

(** The iteration on the line [exit]: a prompt, and the loop ends. *)
Lemma loop_exit_line (tail rest : list ascii) (w : world) :
  (tail = [] /\ rest = [] \/ tail = "010"%char :: rest) ->
  w_stdin w = lit "exit" ++ tail ->
  exists w1 cs,
    (forall n, noosh_loop H (S n) w = Ret tt w1) /\
    w_stdin w1 = rest /\
    w_stdout w1 = w_stdout w ++ lit "> " /\
    w_stderr w1 = w_stderr w /\ w_cwd w1 = w_cwd w /\
    w_calls w1 = w_calls w ++ cs /\
    forallb (fun c => negb (process_call c)) cs = true.
Proof.
  intros Htail Hin.
  destruct (read_line_generous (put_out (lit "> ") w)) as (q & Hread).
  change (w_stdin (put_out (lit "> ") w)) with (w_stdin w) in Hread.
  rewrite Hin in Hread.
  assert (Hline : line_of (lit "exit" ++ tail) = lit "exit"
                  /\ after_line (lit "exit" ++ tail) = rest)
    by (destruct Htail as [[-> ->]| ->]; split; reflexivity).
  destruct Hline as [Hline Hafter]. rewrite Hline, Hafter in Hread.
  destruct (@split_line_generous H (lit "exit" ++ [NUL])
              (log_all (read_calls q) (set_stdin rest (put_out (lit "> ") w)))
              Hgen) as (ptrs & m' & Hsplit & _ & Hstr).
  change (maximal_runs (c_str (lit "exit" ++ [NUL]))) with [lit "exit"] in Hstr.
  destruct ptrs as [|p [|p' ptrs]]; try discriminate Hstr.
  injection Hstr as Hname.
  assert (Hslot : slot (array_of [p]) 0 = Some p) by reflexivity.
  eexists. exists (read_calls q ++ split_calls (length [p] / 64)). split.
  - intros n. cbn [noosh_loop]. unfold bind at 1. unfold printf at 1.
    unfold bind at 1. rewrite Hread.
    unfold bind at 1. rewrite Hsplit.
    unfold bind at 1.
    rewrite (proj2 (proj2 (proj2 (execute_builtin H m' (array_of [p]) _ Hslot)))
               Hname).
    reflexivity.
  - rewrite log_all_stdin, log_all_stdout, log_all_stderr, log_all_cwd.
    rewrite log_all_stdin, log_all_stdout, log_all_stderr, log_all_cwd.
    rewrite !log_all_calls. cbn [w_stdin w_stdout w_stderr w_cwd w_calls
                                 set_stdin put_out].
    repeat split; [now rewrite app_assoc|].
    rewrite forallb_app.
    destruct (alloc_calls_not_process q) as [-> _].
    destruct (alloc_calls_not_process (length [p] / 64)) as [_ ->]. reflexivity.
Qed.

End LoopLines.

(** X9: blank lines are skipped and [exit] ends the shell.  On a host that
    grants its allocations, with an input of blank lines followed by the
    line [exit] (ended by a newline or by the end of the input), [main]
    returns [EXIT_SUCCESS] after one prompt for each line; it writes
    nothing else, starts no process, leaves the working directory alone,
    and what follows the line [exit] is not read. *)
Theorem shell_skips_blank_lines_until_exit
        (H : host) (blanks : list str) (tail rest : list ascii) (w : world) :
  generous H ->
  Forall blank blanks ->
  (tail = [] /\ rest = [] \/ tail = "010"%char :: rest) ->
  w_stdin w
  = concat (map (fun l => l ++ ["010"%char]) blanks) ++ lit "exit" ++ tail ->
  exists w' cs,
    main H (S (length blanks)) w = Ret EXIT_SUCCESS w' /\
    w_stdin w' = rest /\
    w_stdout w' = w_stdout w ++ concat (repeat (lit "> ") (S (length blanks))) /\
    w_stderr w' = w_stderr w /\ w_cwd w' = w_cwd w /\
    w_calls w' = w_calls w ++ cs /\
    forallb (fun c => negb (process_call c)) cs = true.
Proof.
  intros Hgen Hblanks Htail. revert w.
  induction Hblanks as [|l blanks Hl _ IH]; intros w Hin.
  - cbn [map concat app] in Hin.
    destruct (@loop_exit_line H Hgen tail rest w Htail Hin)
      as (w1 & cs & Hrun & Hin1 & Hout1 & Hrest).
    exists w1, cs. split; [|split; [exact Hin1|split; [|exact Hrest]]].
    + unfold main, bind. cbn [length]. rewrite (Hrun O). reflexivity.
    + rewrite Hout1. reflexivity.
  - cbn [map concat] in Hin. rewrite <- !app_assoc in Hin. cbn [app] in Hin.
    destruct (@loop_blank_line H Hgen l _ w Hl Hin)
      as (w1 & cs1 & Hstep & Hin1 & Hout1 & Herr1 & Hcwd1 & Hcalls1 & Hcs1).
    destruct (IH w1 Hin1)
      as (w' & cs & Hmain & Hin' & Hout' & Herr' & Hcwd' & Hcalls' & Hcs').
    exists w', (cs1 ++ cs). split.
    + revert Hmain. unfold main, bind. cbn [length]. now rewrite Hstep.
    + rewrite Hout', Hout1, Herr', Herr1, Hcwd', Hcwd1, Hcalls', Hcalls1.
      rewrite forallb_app, Hcs1, Hcs'. cbn [length repeat concat].
      rewrite <- !app_assoc. repeat split; assumption.
Qed.

Lemma shell_skips_blank_lines_until_exit_witness :
  exists w' cs,
    main calm_host 3
         (boot (LF ++ lit "  " ++ LF ++ lit "exit" ++ LF ++ lit "ls"))
    = Ret EXIT_SUCCESS w' /\
    w_stdin w' = lit "ls" /\
    w_stdout w' = lit "> > > " /\
    w_stderr w' = [] /\ w_cwd w' = lit "/" /\
    w_calls w' = cs /\
    forallb (fun c => negb (process_call c)) cs = true.
Proof.
  apply (@shell_skips_blank_lines_until_exit calm_host [[]; lit "  "]
           (LF ++ lit "ls") (lit "ls")
           (boot (LF ++ lit "  " ++ LF ++ lit "exit" ++ LF ++ lit "ls"))).
  - intros w size. reflexivity.
  - repeat constructor; discriminate.
  - right. reflexivity.
  - reflexivity.
Defined.

(* ================================================================== *)
(** ** A program that cannot be started, and a NUL in the line *)



(** X11: a NUL byte in an input line ends the command.  On a host that
    grants its allocations, for a line [before ++ NUL :: behind] the
    reader keeps the whole line in the buffer, and the tokens are the
    maximal runs of [before] alone: what is behind the NUL is dropped. *)
Theorem nul_byte_cuts_the_line
        (H : host) (before behind rest : list ascii) (w : world) :
  generous H ->
  Forall (fun c => is_nul c = false) before ->
  ~ In "010"%char (before ++ NUL :: behind) ->
  w_stdin w = (before ++ NUL :: behind) ++ "010"%char :: rest ->
  exists w1 ptrs m' w2,
    noosh_read_line H w = Ret ((before ++ NUL :: behind) ++ [NUL]) w1 /\
    noosh_split_line H ((before ++ NUL :: behind) ++ [NUL]) w1
    = Ret (array_of ptrs, m') w2 /\
    token_strings m' ptrs = maximal_runs before.
Proof.
  intros Hgen Hclean Hno Hin.
  destruct (@read_line_generous H Hgen w) as (q & Hread).
  destruct (@line_of_app (before ++ NUL :: behind) rest Hno) as [Hline _].
  rewrite Hin, Hline in Hread.
  eexists.
  destruct (@split_line_generous H ((before ++ NUL :: behind) ++ [NUL])
              (log_all (read_calls q)
                 (set_stdin (after_line ((before ++ NUL :: behind)
                                         ++ "010"%char :: rest)) w))
              Hgen) as (ptrs & m' & Hsplit & _ & Hstr).
  exists ptrs, m'. eexists. split; [exact Hread|]. split; [exact Hsplit|].
  rewrite Hstr, <- app_assoc. cbn [app]. now rewrite c_str_app_nul.
Qed.

Lemma nul_byte_cuts_the_line_witness :
  exists w1 ptrs m' w2,
    noosh_read_line calm_host
      (boot ((lit "ls " ++ NUL :: lit "-l") ++ "010"%char :: lit "exit"))
    = Ret ((lit "ls " ++ NUL :: lit "-l") ++ [NUL]) w1 /\
    noosh_split_line calm_host ((lit "ls " ++ NUL :: lit "-l") ++ [NUL]) w1
    = Ret (array_of ptrs, m') w2 /\
    token_strings m' ptrs = maximal_runs (lit "ls ").
Proof.
  apply (@nul_byte_cuts_the_line calm_host (lit "ls ") (lit "-l") (lit "exit")
           (boot ((lit "ls " ++ NUL :: lit "-l") ++ "010"%char :: lit "exit"))).
  - intros w size. reflexivity.
  - repeat constructor.
  - simpl. intuition discriminate.
  - reflexivity.
Defined.

(* ================================================================== *)
(** ** [strtok] on one field, [fgets] on one line, [atoi] before a newline *)

Lemma peek_app (pre x : memory) (k : nat) :
  peek (pre ++ x) (length pre + k) = peek x k.
Proof.
  unfold peek. rewrite app_nth2 by lia. f_equal. lia.
Qed.

Lemma skipn_app_exact (pre x : memory) : skipn (length pre) (pre ++ x) = x.
Proof.
  rewrite skipn_app, skipn_all, Nat.sub_diag. reflexivity.
Qed.

Lemma poke_app (pre x : memory) (k : nat) (c : ascii) :
  poke (pre ++ x) (length pre + k) c = pre ++ poke x k c.
Proof.
  induction pre as [|a pre IH]; simpl; [reflexivity|]. now rewrite IH.
Qed.

Lemma strcspn_field (d : str) (field : str) (term : ascii) (post : memory) :
  Forall (field_char d) field ->
  is_nul term = true \/ in_set term d = true ->
  strcspn (field ++ term :: post) d = length field.
Proof.
  intros Hfield Hterm.
  induction Hfield as [|c field [Hn Hd] _ IH]; simpl.
  - destruct (is_nul term); [reflexivity|].
    destruct Hterm as [E|E]; [discriminate E|now rewrite E].
  - now rewrite Hn, Hd, IH.
Qed.

(** [strtok] with its saved pointer at the start of a field that a
    delimiter or the end of the string follows. *)
Lemma strtok_field (d : str) (pre field : memory) (term : ascii) (post : memory) :
  field <> [] ->
  Forall (field_char d) field ->
  is_nul term = true \/ in_set term d = true ->
  strtok None d (pre ++ field ++ term :: post) (length pre)
  = if is_nul term
    then (Some (length pre), pre ++ field ++ term :: post,
          (length pre + length field)%nat)
    else (Some (length pre), pre ++ field ++ NUL :: post,
          S (length pre + length field)).
Proof.
  intros Hne Hfield Hterm.
  pose proof (@strcspn_field d field term post Hfield Hterm) as Hcspn.
  assert (Hterm' : peek (field ++ term :: post) (length field) = term).
  { rewrite <- (Nat.add_0_r (length field)), peek_app. reflexivity. }
  assert (Hpoke : poke (field ++ term :: post) (length field) NUL
                  = field ++ NUL :: post).
  { rewrite <- (Nat.add_0_r (length field)), poke_app. reflexivity. }
  assert (Hhead : is_nul (peek (field ++ term :: post) 0) = false
                  /\ strspn (field ++ term :: post) d = O).
  { destruct field as [|c field]; [contradiction|].
    inversion Hfield as [|? ? [Hn Hd] Hrest]; subst.
    split; [exact Hn|]. simpl. now rewrite Hn, Hd. }
  destruct Hhead as [Hnul Hspn].
  remember (field ++ term :: post) as s eqn:Hs.
  unfold strtok.
  rewrite <- (Nat.add_0_r (length pre)) at 1. rewrite peek_app, Hnul.
  rewrite skipn_app_exact, Hspn, Nat.add_0_r.
  rewrite <- (Nat.add_0_r (length pre)) at 1. rewrite peek_app, Hnul.
  rewrite skipn_app_exact, Hcspn, peek_app, Hterm'.
  destruct (is_nul term); [reflexivity|].
  now rewrite poke_app, Hpoke.
Qed.

Lemma string_at_field (pre field post : memory) :
  Forall (fun c => is_nul c = false) field ->
  string_at (pre ++ field ++ NUL :: post) (length pre) = field.
Proof.
  intros Hfield. unfold string_at. rewrite skipn_app_exact.
  now apply c_str_app_nul.
Qed.

Lemma fgets_chars_line (body rest : list ascii) :
  forall n,
    ~ In "010"%char body ->
    (length body < n)%nat ->
    fgets_chars n (body ++ "010"%char :: rest) = (body ++ ["010"%char], rest).
Proof.
  induction body as [|c body IH]; intros n Hno Hn;
    (destruct n as [|n]; [simpl in Hn; lia|]); simpl.
  - reflexivity.
  - destruct (Ascii.eqb c "010"%char) eqn:E.
    + apply Ascii.eqb_eq in E. exfalso. apply Hno. now left.
    + rewrite IH; [reflexivity| |simpl in Hn; lia].
      intros Hin. apply Hno. now right.
Qed.

Lemma digit_of_newline : digit_of "010"%char = None.
Proof. reflexivity. Qed.

Lemma atoi_digits_newline (s : str) :
  forall acc, atoi_digits (s ++ ["010"%char]) acc = atoi_digits s acc.
Proof.
  induction s as [|c s IH]; intros acc; simpl; [reflexivity|].
  destruct (digit_of c); [apply IH|reflexivity].
Qed.

(** The newline that [fgets] leaves at the end of a value does not change
    what [atoi] reads. *)
Lemma atoi_newline (s : str) : atoi (s ++ ["010"%char]) = atoi s.
Proof.
  unfold atoi. f_equal.
  assert (Hval : atoi_value (s ++ ["010"%char]) = atoi_value s).
  { induction s as [|c s IH]; [reflexivity|].
    cbn [app atoi_value]. destruct (isspace c); [exact IH|].
    unfold atoi_signed.
    change ((c :: s) ++ ["010"%char]) with (c :: s ++ ["010"%char]).
    destruct (Ascii.eqb c "-"%char); [now rewrite atoi_digits_newline|].
    destruct (Ascii.eqb c "+"%char); [now rewrite atoi_digits_newline|].
    change (c :: s ++ ["010"%char]) with ((c :: s) ++ ["010"%char]).
    now rewrite atoi_digits_newline. }
  now rewrite Hval.
Qed.

(* ================================================================== *)
(** ** [read_config] *)

Lemma plain_field_char (c : ascii) : plain c -> field_char (lit "=") c.
Proof.
  intros (Heq & Hnul & _). split.
  - unfold is_nul. now apply Ascii.eqb_neq.
  - unfold in_set. simpl. rewrite orb_false_r. now apply Ascii.eqb_neq.
Qed.

Lemma plain_no_nul (s : str) :
  Forall plain s -> Forall (fun c => is_nul c = false) s.
Proof.
  intros Hs. eapply Forall_impl; [|exact Hs].
  intros c Hc. exact (proj1 (plain_field_char Hc)).
Qed.

Lemma plain_no_newline (s : str) : Forall plain s -> ~ In "010"%char s.
Proof.
  intros Hs Hin. rewrite Forall_forall in Hs.
  destruct (Hs _ Hin) as (_ & _ & Hlf). now apply Hlf.
Qed.

Lemma strcmp_dec (a b : str) :
  Forall (fun c => is_nul c = false) a ->
  Forall (fun c => is_nul c = false) b ->
  (strcmp a b =? 0) = if list_eq_dec ascii_dec a b then true else false.
Proof.
  intros Ha Hb. destruct (list_eq_dec ascii_dec a b) as [->|Hne].
  - now rewrite strcmp_refl.
  - now apply strcmp_neq.
Qed.

Lemma strtok_start (d : str) (m : memory) :
  strtok (Some O) d m O = strtok None d m O.
Proof. reflexivity. Qed.

(** One line [key=value] of the file: the assignment, and the loop goes on
    with the rest of the file. *)
Lemma config_loop_line (e : str * str) (rest : list ascii) (n : nat)
      (config : ColorConfig) (w : world) :
  good_entry e ->
  NooshC.config_loop (S n) (config_line e ++ rest) config w
  = NooshC.config_loop n rest (assign config e) w.
Proof.
  destruct e as [k v]. intros (Hne & Hk & Hv & Hlen & value & Hvalue).
  unfold config_line in *. cbn [fst snd] in *.
  assert (Hbody : (k ++ "="%char :: v ++ ["010"%char]) ++ rest
                  = (k ++ "="%char :: v) ++ "010"%char :: rest)
    by (rewrite <- !app_assoc; cbn; now rewrite <- app_assoc).
  assert (Hno : ~ In "010"%char (k ++ "="%char :: v)).
  { intros Hin. apply in_app_or in Hin. destruct Hin as [Hin|[E|Hin]].
    - now apply (plain_no_newline Hk).
    - discriminate E.
    - now apply (plain_no_newline Hv). }
  assert (Hshort : (length (k ++ "="%char :: v) < 127)%nat).
  { rewrite length_app in *. cbn [length] in *. rewrite length_app in Hlen.
    cbn [length] in Hlen. lia. }
  cbn [NooshC.config_loop]. unfold fgets. rewrite Hbody.
  destruct ((k ++ "="%char :: v) ++ "010"%char :: rest) as [|c0 file0] eqn:Hfile.
  { destruct k; [contradiction|discriminate Hfile]. }
  rewrite <- Hfile. change (Z.to_nat (128 - 1)) with 127%nat.
  rewrite (@fgets_chars_line (k ++ "="%char :: v) rest 127 Hno Hshort).
  rewrite strtok_start.
  assert (Hbuf1 : ((k ++ "="%char :: v) ++ ["010"%char]) ++ [NUL]
                  = [] ++ k ++ "="%char :: ((v ++ ["010"%char]) ++ [NUL]))
    by (rewrite <- !app_assoc; reflexivity).
  rewrite Hbuf1.
  assert (Hk' : Forall (field_char (lit "=")) k)
    by (eapply Forall_impl; [|exact Hk]; apply plain_field_char).
  pose proof (@strtok_field (lit "=") [] k "="%char
                ((v ++ ["010"%char]) ++ [NUL]) Hne Hk' (or_intror eq_refl))
    as Hfirst.
  change (is_nul "="%char) with false in Hfirst. cbv iota in Hfirst.
  cbn [app length Nat.add] in Hfirst. cbn [app].
  rewrite Hfirst. clear Hfirst.
  assert (Hbuf2 : k ++ NUL :: (v ++ ["010"%char]) ++ [NUL]
                  = (k ++ [NUL]) ++ (v ++ ["010"%char]) ++ NUL :: [])
    by (rewrite <- !app_assoc; reflexivity).
  assert (Hsave : S (length k) = length (k ++ [NUL]))
    by (rewrite length_app; simpl; lia).
  rewrite Hbuf2, Hsave.
  assert (Hfield2 : Forall (field_char (lit "=")) (v ++ ["010"%char])).
  { apply Forall_app. split.
    - eapply Forall_impl; [|exact Hv]. apply plain_field_char.
    - repeat constructor. }
  rewrite (@strtok_field (lit "=") (k ++ [NUL]) (v ++ ["010"%char]) NUL []);
    [|now destruct v|exact Hfield2|now left].
  change (is_nul NUL) with true. cbv iota.
  rewrite string_at_field
    by (apply Forall_app; split; [now apply plain_no_nul|repeat constructor]).
  rewrite atoi_newline, Hvalue.
  assert (Hkey : string_at ((k ++ [NUL]) ++ (v ++ ["010"%char]) ++ [NUL]) 0 = k).
  { rewrite <- app_assoc. cbn [app].
    apply (@string_at_field [] k ((v ++ ["010"%char]) ++ [NUL])).
    now apply plain_no_nul. }
  rewrite Hkey.
  unfold assign. cbn [fst snd]. rewrite Hvalue.
  rewrite !strcmp_dec; try (now apply plain_no_nul); try (repeat constructor).
  destruct (list_eq_dec ascii_dec k (lit "username_color")); [reflexivity|].
  destruct (list_eq_dec ascii_dec k (lit "cwd_color")); reflexivity.
Qed.

Lemma config_loop_entries (entries : list (str * str)) :
  forall (n : nat) (config : ColorConfig) (w : world),
    Forall good_entry entries ->
    (length entries < n)%nat ->
    NooshC.config_loop n (concat (map config_line entries)) config w
    = Ret (Some (fold_left assign entries config)) w.
Proof.
  induction entries as [|e entries IH]; intros n config w Hgood Hn;
    (destruct n as [|n]; [simpl in Hn; lia|]).
  - reflexivity.
  - inversion Hgood as [|? ? He Hrest]; subst.
    cbn [map concat fold_left].
    rewrite (config_loop_line _ _ _ _ He).
    apply IH; [exact Hrest|simpl in Hn; lia].
Qed.

Lemma config_lines_length (entries : list (str * str)) :
  (length entries <= length (concat (map config_line entries)))%nat.
Proof.
  induction entries as [|e entries IH]; simpl; [lia|].
  rewrite length_app. unfold config_line at 1. rewrite length_app. simpl. lia.
Qed.

(** A first line without [=]: the second [strtok] finds no field. *)
Lemma config_loop_no_value (body rest : list ascii) (n : nat)
      (config : ColorConfig) (w : world) :
  Forall plain body ->
  (length body < 127)%nat ->
  NooshC.config_loop (S n) (body ++ "010"%char :: rest) config w = Ret None w.
Proof.
  intros Hbody Hshort.
  cbn [NooshC.config_loop]. unfold fgets.
  destruct (body ++ "010"%char :: rest) as [|c0 file0] eqn:Hfile.
  { destruct body; discriminate Hfile. }
  rewrite <- Hfile. change (Z.to_nat (128 - 1)) with 127%nat.
  rewrite (@fgets_chars_line body rest 127 (plain_no_newline Hbody) Hshort).
  rewrite strtok_start.
  assert (Hfield : Forall (field_char (lit "=")) (body ++ ["010"%char])).
  { apply Forall_app. split.
    - eapply Forall_impl; [|exact Hbody]. apply plain_field_char.
    - repeat constructor. }
  assert (Hne : body ++ ["010"%char] <> []) by now destruct body.
  pose proof (@strtok_field (lit "=") [] (body ++ ["010"%char]) NUL []
                Hne Hfield (or_introl eq_refl)) as Hfirst.
  change (is_nul NUL) with true in Hfirst. cbv iota in Hfirst.
  cbn [app length Nat.add] in Hfirst.
  rewrite Hfirst. clear Hfirst.
  unfold strtok at 1.
  assert (Hend : peek ((body ++ ["010"%char]) ++ [NUL])
                      (length (body ++ ["010"%char])) = NUL).
  { rewrite <- (Nat.add_0_r (length (body ++ ["010"%char]))), peek_app.
    reflexivity. }
  rewrite Hend. reflexivity.
Qed.

Section ReadConfig.

Variable H : host.
Variable D : desk.

(** X12: without a configuration [read_config] gives the default colours
    32 and 35.  When the link to the executable cannot be read, or the
    file beside the executable cannot be opened, it reports that on
    standard error and returns the defaults; an empty file gives the
    defaults and no report. *)
Theorem read_config_defaults (filename : str) (w : world) :
  (forall e,
      d_readlink D w (lit "/proc/self/exe") = Fail e ->
      exists w',
        NooshC.read_config H D filename w
        = Ret (Some (mkColorConfig 32 35)) w' /\
        w_stderr w'
        = w_stderr w ++ lit "Error finding executable path: "
          ++ h_strerror H e ++ LF /\
        w_stdout w' = w_stdout w) /\
  (forall target e,
      d_readlink D w (lit "/proc/self/exe") = Done target ->
      d_fopen D w (config_path D target filename) = Fail e ->
      exists w',
        NooshC.read_config H D filename w
        = Ret (Some (mkColorConfig 32 35)) w' /\
        w_stderr w'
        = w_stderr w ++ lit "Error opening config file: "
          ++ h_strerror H e ++ LF /\
        w_stdout w' = w_stdout w) /\
  (forall target,
      d_readlink D w (lit "/proc/self/exe") = Done target ->
      d_fopen D w (config_path D target filename) = Done [] ->
      NooshC.read_config H D filename w = Ret (Some (mkColorConfig 32 35)) w).
Proof.
  unfold NooshC.read_config, NooshC.readlink, NooshC.fopen, config_path, bind.
  split; [|split].
  - intros e Hlink. rewrite Hlink. eexists. split; [reflexivity|].
    split; reflexivity.
  - intros target e Hlink Hopen. rewrite Hlink, Hopen.
    eexists. split; [reflexivity|]. split; reflexivity.
  - intros target Hlink Hopen. rewrite Hlink, Hopen. reflexivity.
Qed.

(** X13: a configuration file of lines [key=value], each shorter than the
    128 bytes of the line buffer, is read as a sequence of assignments:
    a line with the key [username_color] sets that colour to the number
    its value holds, one with the key [cwd_color] sets the other, lines
    with other keys change nothing, and the last assignment to a colour
    stands. *)
Theorem read_config_lookup
        (filename target : str) (entries : list (str * str)) (w : world) :
  Forall good_entry entries ->
  d_readlink D w (lit "/proc/self/exe") = Done target ->
  d_fopen D w (config_path D target filename)
  = Done (concat (map config_line entries)) ->
  NooshC.read_config H D filename w
  = Ret (Some (fold_left assign entries (mkColorConfig 32 35))) w.
Proof.
  intros Hgood Hlink Hopen.
  unfold NooshC.read_config, NooshC.readlink, NooshC.fopen, bind.
  rewrite Hlink. fold (config_path D target filename). rewrite Hopen.
  apply config_loop_entries; [exact Hgood|].
  pose proof (config_lines_length entries). lia.
Qed.

(** X14: a line without [=] makes [read_config] undefined.  When the first
    line of the file has no [=] (a blank line, or a key alone), the second
    [strtok] returns the null pointer and [atoi] is called with it. *)
Theorem read_config_line_without_value
        (filename target : str) (body rest : list ascii) (w : world) :
  Forall plain body ->
  (length body < 127)%nat ->
  d_readlink D w (lit "/proc/self/exe") = Done target ->
  d_fopen D w (config_path D target filename)
  = Done (body ++ "010"%char :: rest) ->
  NooshC.read_config H D filename w = Ret None w.
Proof.
  intros Hbody Hshort Hlink Hopen.
  unfold NooshC.read_config, NooshC.readlink, NooshC.fopen, bind.
  rewrite Hlink. fold (config_path D target filename). rewrite Hopen.
  now apply config_loop_no_value.
Qed.

End ReadConfig.

Lemma read_config_defaults_witness :
  (exists w',
     NooshC.read_config calm_host lost_desk (lit "noosh_config.txt") (boot [])
     = Ret (Some (mkColorConfig 32 35)) w' /\
     w_stderr w' = lit "Error finding executable path: error" ++ LF /\
     w_stdout w' = []) /\
  (exists w',
     NooshC.read_config calm_host bare_desk (lit "noosh_config.txt") (boot [])
     = Ret (Some (mkColorConfig 32 35)) w' /\
     w_stderr w' = lit "Error opening config file: error" ++ LF /\
     w_stdout w' = []) /\
  NooshC.read_config calm_host (desk_with []) (lit "noosh_config.txt") (boot [])
  = Ret (Some (mkColorConfig 32 35)) (boot []).
Proof.
  split; [|split].
  - apply (proj1 (@read_config_defaults calm_host lost_desk
                    (lit "noosh_config.txt") (boot [])) 2).
    reflexivity.
  - apply (proj1 (proj2 (@read_config_defaults calm_host bare_desk
                           (lit "noosh_config.txt") (boot [])))
                 (lit "/usr/bin/noosh") 2); reflexivity.
  - apply (proj2 (proj2 (@read_config_defaults calm_host (desk_with [])
                           (lit "noosh_config.txt") (boot [])))
                 (lit "/usr/bin/noosh")); reflexivity.
Defined.

Lemma sample_entries_good : Forall good_entry sample_entries.
Proof.
  unfold sample_entries, good_entry, plain.
  repeat constructor; cbn [fst snd]; try discriminate;
    try (simpl; lia); try (eexists; reflexivity).
Qed.

Lemma read_config_lookup_witness :
  NooshC.read_config calm_host
    (desk_with (concat (map config_line sample_entries)))
    (lit "noosh_config.txt") (boot [])
  = Ret (Some (mkColorConfig 36 34)) (boot []).
Proof.
  apply (@read_config_lookup calm_host
           (desk_with (concat (map config_line sample_entries)))
           (lit "noosh_config.txt") (lit "/usr/bin/noosh") sample_entries
           (boot []) sample_entries_good); reflexivity.
Defined.

Lemma read_config_line_without_value_witness :
  NooshC.read_config calm_host
    (desk_with (LF ++ lit "cwd_color=34" ++ LF))
    (lit "noosh_config.txt") (boot [])
  = Ret None (boot []).
Proof.
  apply (@read_config_line_without_value calm_host
           (desk_with (LF ++ lit "cwd_color=34" ++ LF))
           (lit "noosh_config.txt") (lit "/usr/bin/noosh") []
           (lit "cwd_color=34" ++ LF) (boot [])).
  - constructor.
  - simpl. lia.
  - reflexivity.
  - reflexivity.
Defined.

(* ================================================================== *)
(** ** The dispatch and the loop of [src/noosh.c] *)

Section NooshCLoop.

Variable H : host.

(** [pwd] of the two files in a world.  A world holds the calls of the
    allocator and no heap: that [src/main.c] frees the buffer and
    [src/noosh.c] does not is not seen in it. *)
Lemma pwd_same (m : memory) (args : array) (w : world) :
  NooshC.noosh_pwd H m args w = noosh_pwd H m args w.
Proof.
  unfold noosh_pwd, NooshC.noosh_pwd, NooshC.get_cwd.
  unfold bind, malloc, getcwd, perror, printf, exit, ret.
  destruct (h_alloc H w (1 * PATH_MAX)) as [[]|e]; [|reflexivity].
  cbv beta iota delta [negb].
  destruct (h_getcwd H _ PATH_MAX) as [[]|e]; reflexivity.
Qed.

(** The scan of the builtin table in [src/noosh.c], one comparison after
    the other. *)
Lemma execute_scan_c (m : memory) (args : array) (p : nat) (w : world) :
  slot args 0 = Some p ->
  NooshC.noosh_execute H m args w
  = if strcmp (string_at m p) (lit "cd") =? 0 then noosh_cd H m args w
    else if strcmp (string_at m p) (lit "pwd") =? 0 then noosh_pwd H m args w
    else if strcmp (string_at m p) (lit "help") =? 0 then noosh_help m args w
    else if strcmp (string_at m p) (lit "exit") =? 0 then noosh_exit m args w
    else noosh_launch H m args w.
Proof.
  intros Hslot. unfold NooshC.noosh_execute. rewrite Hslot.
  change (Z.to_nat noosh_num_builtins) with 4%nat.
  cbn [for_loop].
  change (0 + 1) with 1. change (1 + 1) with 2. change (2 + 1) with 3.
  change (Z.to_nat 0) with 0%nat. change (Z.to_nat 1) with 1%nat.
  change (Z.to_nat 2) with 2%nat. change (Z.to_nat 3) with 3%nat.
  change (0 <? noosh_num_builtins) with true.
  change (1 <? noosh_num_builtins) with true.
  change (2 <? noosh_num_builtins) with true.
  change (3 <? noosh_num_builtins) with true.
  cbn [nth builtin_str NooshC.builtin_func].
  unfold bind, ret.
  destruct (strcmp (string_at m p) (lit "cd") =? 0);
    [destruct (noosh_cd H m args w); reflexivity|].
  destruct (strcmp (string_at m p) (lit "pwd") =? 0);
    [rewrite pwd_same; destruct (noosh_pwd H m args w); reflexivity|].
  destruct (strcmp (string_at m p) (lit "help") =? 0);
    [destruct (noosh_help m args w); reflexivity|].
  destruct (strcmp (string_at m p) (lit "exit") =? 0);
    [destruct (noosh_exit m args w); reflexivity|].
  reflexivity.
Qed.

(** X16: in [src/noosh.c] the working directory is resolved for every
    prompt.  When it cannot be resolved the process exits with
    [EXIT_FAILURE] there: the error is on standard error, no prompt is
    written and the waiting input is not read. *)
Theorem prompt_needs_working_directory
        (n : nat) (config : ColorConfig) (username hostname : str)
        (w : world) (e : Z) :
  h_alloc H w (1 * PATH_MAX) = Done tt ->
  h_getcwd H (log (Malloc (1 * PATH_MAX)) w) PATH_MAX = Fail e ->
  exists w',
    NooshC.prompt_loop H (S n) config username hostname w
    = Exited EXIT_FAILURE w' /\
    w_stderr w' = w_stderr w ++ lit "noosh: " ++ h_strerror H e ++ LF /\
    w_stdout w' = w_stdout w /\
    w_stdin w' = w_stdin w.
Proof.
  intros Halloc Hcwd. cbn [NooshC.prompt_loop].
  unfold bind at 1. unfold NooshC.get_cwd.
  unfold bind, malloc, getcwd, perror, exit, ret.
  rewrite Halloc. cbv beta iota delta [negb]. rewrite Hcwd.
  eexists. split; [reflexivity|]. repeat split.
Qed.

Hypothesis Hgen : generous H.
Hypothesis Hcwd : forall w size, h_getcwd H w size = Done tt.

Lemma get_cwd_ok (w : world) :
  NooshC.get_cwd H w
  = Ret (w_cwd w) (log (Getcwd PATH_MAX) (log (Malloc (1 * PATH_MAX)) w)).
Proof.
  unfold NooshC.get_cwd, bind, malloc, getcwd, ret.
  rewrite Hgen. cbv beta iota delta [negb]. now rewrite Hcwd.
Qed.

Lemma prompt_loop_eof (config : ColorConfig) (username hostname : str)
      (n : nat) :
  forall w,
    w_stdin w = [] ->
    exists w',
      NooshC.prompt_loop H n config username hostname w = OutOfFuel w' /\
      w_stdin w' = [] /\ w_cwd w' = w_cwd w /\
      w_stdout w'
      = w_stdout w
        ++ concat (repeat (prompt_text config username hostname (w_cwd w)) n) /\
      w_stderr w' = w_stderr w.
Proof.
  induction n as [|n IH]; intros w Hin.
  - exists w. cbn. rewrite app_nil_r. auto.
  - cbn [NooshC.prompt_loop]. unfold bind at 1. rewrite get_cwd_ok.
    unfold bind at 1. unfold printf at 1.
    unfold bind at 1. rewrite (read_line_eof Hgen) by exact Hin.
    unfold bind at 1. rewrite (split_line_empty Hgen).
    unfold bind at 1.
    change (NooshC.noosh_execute H [NUL] (array_of []))
      with (fun w0 : world => Ret 1 w0).
    cbv beta iota. change (negb (1 =? 0)) with true. cbv iota.
    match goal with
    | |- context [NooshC.prompt_loop H n _ _ _ ?w0] =>
        destruct (IH w0 Hin) as (w' & Hrun & Hin' & Hcwd' & Hout & Herr)
    end.
    exists w'. split; [exact Hrun|]. split; [exact Hin'|].
    split; [exact Hcwd'|]. split; [|exact Herr].
    rewrite Hout. cbn. now rewrite <- app_assoc.
Qed.

(** The tokens of the line [cd dir]. *)
Lemma runs_cd (dir : str) :
  dir <> [] -> no_delim dir -> Forall (fun c => is_nul c = false) dir ->
  maximal_runs (c_str ((lit "cd " ++ dir) ++ [NUL])) = [lit "cd"; dir].
Proof.
  intros Hne Hnd Hnn. rewrite c_str_terminated.
  rewrite c_str_clean by (repeat constructor; exact Hnn).
  change (lit "cd " ++ dir) with ([] ++ lit "cd" ++ " "%char :: dir).
  rewrite runs_more;
    [|constructor|discriminate|repeat constructor|reflexivity].
  f_equal. change dir with ([] ++ dir) at 1.
  apply runs_last; [constructor|exact Hne|exact Hnd].
Qed.

(** X17: the prompt of [src/noosh.c] follows [cd].  On a host that grants
    the allocations and resolves the working directory, with the line
    [cd dir] as the whole input and a directory [dir] that [chdir]
    accepts, the first prompt names the old working directory and every
    prompt after it the new one; nothing is reported. *)
Theorem prompt_follows_cd
        (n : nat) (config : ColorConfig) (username hostname dir d : str)
        (w : world) :
  (forall w1, h_chdir H w1 dir = Done d) ->
  dir <> [] -> no_delim dir -> Forall (fun c => is_nul c = false) dir ->
  w_stdin w = lit "cd " ++ dir ++ LF ->
  exists w',
    NooshC.prompt_loop H (S n) config username hostname w = OutOfFuel w' /\
    w_cwd w' = d /\
    w_stdout w'
    = w_stdout w ++ prompt_text config username hostname (w_cwd w)
      ++ concat (repeat (prompt_text config username hostname d) n) /\
    w_stderr w' = w_stderr w.
Proof.
  intros Hdir Hne Hnd Hnn Hin.
  assert (Hno : ~ In "010"%char (lit "cd " ++ dir)).
  { intros [E|[E|[E|Hi]]]; try discriminate E.
    unfold no_delim in Hnd. rewrite Forall_forall in Hnd.
    specialize (Hnd _ Hi). discriminate Hnd. }
  destruct (@line_of_app (lit "cd " ++ dir) [] Hno) as [Hline Hafter].
  rewrite <- app_assoc in Hline, Hafter.
  cbn [NooshC.prompt_loop]. unfold bind at 1. rewrite get_cwd_ok.
  unfold bind at 1. unfold printf at 1.
  match goal with
  | |- context [noosh_read_line H] =>
      idtac
  end.
  unfold bind at 1.
  match goal with
  | |- context [noosh_read_line H ?w0] =>
      destruct (@read_line_generous H Hgen w0) as (q & Hread);
      change (w_stdin w0) with (w_stdin w) in Hread
  end.
  change LF with ["010"%char] in Hin.
  rewrite Hin, Hline, Hafter in Hread. rewrite Hread. clear Hread.
  unfold bind at 1.
  match goal with
  | |- context [noosh_split_line H ?l ?w0] =>
      destruct (@split_line_generous H l w0 Hgen)
        as (ptrs & m' & Hsplit & _ & Hstr)
  end.
  rewrite (runs_cd Hne Hnd Hnn) in Hstr.
  destruct ptrs as [|p0 [|p1 [|p2 ptrs]]]; try discriminate Hstr.
  injection Hstr as Hcd Hp1.
  rewrite Hsplit. clear Hsplit.
  unfold bind at 1.
  assert (Hslot : slot (array_of [p0; p1]) 0 = Some p0) by reflexivity.
  assert (Hexec : forall w0,
             NooshC.noosh_execute H m' (array_of [p0; p1]) w0
             = Ret 1 (set_cwd d (log (Chdir dir) w0))).
  { intros w0. rewrite (execute_scan_c m' (array_of [p0; p1]) w0 Hslot).
    rewrite Hcd. change (strcmp (lit "cd") (lit "cd") =? 0) with true.
    cbv iota. unfold noosh_cd.
    change (slot (array_of [p0; p1]) 1) with (Some p1).
    unfold bind, chdir, ret. rewrite Hp1, Hdir. reflexivity. }
  rewrite Hexec. change (negb (1 =? 0)) with true. cbv iota.
  match goal with
  | |- context [NooshC.prompt_loop H n _ _ _ ?w0] =>
      destruct (@prompt_loop_eof config username hostname n w0)
        as (w' & Hrun & _ & Hcwd' & Hout & Herr)
  end.
  { cbn [set_cwd w_stdin log]. now rewrite !log_all_stdin. }
  exists w'. split; [exact Hrun|]. split; [exact Hcwd'|].
  rewrite Hout, Herr. cbn [set_cwd w_stdout w_stderr w_cwd log].
  rewrite !log_all_stdout, !log_all_stderr.
  cbn [set_stdin put_out w_stdout w_stderr log].
  split; [|reflexivity]. now rewrite <- app_assoc.
Qed.

End NooshCLoop.


Lemma prompt_follows_cd_witness :
  exists w',
    NooshC.prompt_loop calm_host 3 (mkColorConfig 32 35) (lit "ann")
      (lit "box") (boot (lit "cd /tmp" ++ LF))
    = OutOfFuel w' /\
    w_cwd w' = lit "/tmp" /\
    w_stdout w'
    = w_stdout (boot (lit "cd /tmp" ++ LF))
      ++ prompt_text (mkColorConfig 32 35) (lit "ann") (lit "box")
           (w_cwd (boot (lit "cd /tmp" ++ LF)))
      ++ concat (repeat (prompt_text (mkColorConfig 32 35) (lit "ann")
                           (lit "box") (lit "/tmp")) 2) /\
    w_stderr w' = w_stderr (boot (lit "cd /tmp" ++ LF)).
Proof.
  apply (@prompt_follows_cd calm_host generous_calm_host
           (fun _ _ => eq_refl) 2 (mkColorConfig 32 35) (lit "ann")
           (lit "box") (lit "/tmp") (lit "/tmp") (boot (lit "cd /tmp" ++ LF))).
  - intros w1. reflexivity.
  - discriminate.
  - repeat constructor.
  - repeat constructor.
  - reflexivity.
Defined.

(* ================================================================== *)
(** ** [help] *)

Lemma put_out_twice (a b : str) (w : world) :
  put_out b (put_out a w) = put_out (a ++ b) w.
Proof. unfold put_out. cbn. now rewrite app_assoc. Qed.

(** X19: [help] does not examine its arguments or the world it runs in.
    It writes one text, to standard output only, and returns 1; every name
    of the builtin table is in that text on a line of its own, behind two
    spaces. *)
Theorem help_lists_every_builtin :
  exists text,
    (forall m args w, noosh_help m args w = Ret 1 (put_out text w)) /\
    Forall (fun name =>
              exists pre post,
                text = pre ++ LF ++ lit "  " ++ name ++ LF ++ post)
           builtin_str.
Proof.
  exists (lit "noosh" ++ LF
          ++ lit "Type program names and arguments, and hit enter." ++ LF
          ++ lit "The following are built in:" ++ LF
          ++ concat (map (fun name => lit "  " ++ name ++ LF) builtin_str)
          ++ lit "Use the man command for information on other programs."
          ++ LF).
  split.
  - intros m args w. unfold noosh_help.
    change (Z.to_nat noosh_num_builtins) with 4%nat.
    cbn [for_loop].
    change (0 + 1) with 1. change (1 + 1) with 2. change (2 + 1) with 3.
    change (Z.to_nat 0) with 0%nat. change (Z.to_nat 1) with 1%nat.
    change (Z.to_nat 2) with 2%nat. change (Z.to_nat 3) with 3%nat.
    change (0 <? noosh_num_builtins) with true.
    change (1 <? noosh_num_builtins) with true.
    change (2 <? noosh_num_builtins) with true.
    change (3 <? noosh_num_builtins) with true.
    cbn [nth builtin_str]. unfold bind, printf, ret.
    rewrite !put_out_twice. reflexivity.
  - unfold builtin_str. repeat constructor.
    + exists (lit "noosh" ++ LF
              ++ lit "Type program names and arguments, and hit enter." ++ LF
              ++ lit "The following are built in:").
      eexists. vm_compute. reflexivity.
    + exists (lit "noosh" ++ LF
              ++ lit "Type program names and arguments, and hit enter." ++ LF
              ++ lit "The following are built in:" ++ LF ++ lit "  cd").
      eexists. vm_compute. reflexivity.
    + exists (lit "noosh" ++ LF
              ++ lit "Type program names and arguments, and hit enter." ++ LF
              ++ lit "The following are built in:" ++ LF ++ lit "  cd" ++ LF
              ++ lit "  pwd").
      eexists. vm_compute. reflexivity.
    + exists (lit "noosh" ++ LF
              ++ lit "Type program names and arguments, and hit enter." ++ LF
              ++ lit "The following are built in:" ++ LF ++ lit "  cd" ++ LF
              ++ lit "  pwd" ++ LF ++ lit "  help").
      eexists. vm_compute. reflexivity.
Qed.

(* ================================================================== *)
(** ** The prompt of [src/noosh.c] on sample hosts *)

Lemma prompt_needs_working_directory_witness :
  exists w',
    NooshC.prompt_loop lost_host 3 (mkColorConfig 32 35) (lit "ann")
      (lit "box") (boot (lit "pwd" ++ LF))
    = Exited EXIT_FAILURE w' /\
    w_stderr w'
    = w_stderr (boot (lit "pwd" ++ LF)) ++ lit "noosh: "
      ++ h_strerror lost_host 2 ++ LF /\
    w_stdout w' = w_stdout (boot (lit "pwd" ++ LF)) /\
    w_stdin w' = w_stdin (boot (lit "pwd" ++ LF)).
Proof.
  apply (@prompt_needs_working_directory lost_host 2 (mkColorConfig 32 35)
           (lit "ann") (lit "box") (boot (lit "pwd" ++ LF)) 2);
    reflexivity.
Defined.

